(** * Quices en Vivo: the session engine of [app.py]

    A shallow embedding of the shared quiz state of [app.py] (the
    [Question] and [Quiz] dataclasses, the [QuizManager] registry, the
    button callbacks of the teacher page and the join / answer handlers of
    the student page), followed by the properties of the engine.

    Conventions.
    - Python [int] is [Z]; [len] is [Z.of_nat (length _)].
    - Python [str] is [string]; comparison of strings is the
      lexicographic comparison of their characters ([String.compare]).
    - The dictionaries [Quiz.responses], [Quiz.scores] and
      [QuizManager.quizzes] are [gmap]s.
    - [time.time()] is an explicit argument [now]; timestamps are exact
      rationals and [int(_)] is truncation toward zero.
    - [random.randint] is an explicit list of draws. *)

From Stdlib Require Import ZArith QArith Qround String Ascii List Lia Lqa DecimalString.
From stdpp Require Import gmap strings list fin_maps sorting.

Local Open Scope Z_scope.

(** ** Shared state *)

Module Model.

(** [class Question] *)
Record Question := mkQuestion {
  qid : Z;
  text : string;
  A : string;
  B : string;
  C : string;
  D : string;
  correct : string
}.

(** One entry of [Quiz.responses[qid]]: the dict
    [{'name': _, 'answer': _, 'correct': _}]. *)
Record Response := mkResponse {
  r_name : string;
  r_answer : string;
  r_correct : bool
}.

(** [class Quiz] *)
Record Quiz := mkQuiz {
  title : string;
  time_per_q : Z;
  questions : list Question;
  participants : list string;
  responses : gmap Z (list Response);
  scores : gmap string Z;
  started : bool;
  current_q : Z;
  reveal : bool;
  started_at : Q
}.

(** [Quiz()] with the defaults of the dataclass. *)
Definition Quiz_new : Quiz :=
  {| title := EmptyString; time_per_q := 20; questions := []; participants := [];
     responses := ∅; scores := ∅;
     started := false; current_q := 0; reveal := false; started_at := 0%Q |}.

(** Field assignments [quiz.f = v]. *)
Definition set_title (v : string) (q : Quiz) : Quiz :=
  mkQuiz v (time_per_q q) (questions q) (participants q) (responses q)
         (scores q) (started q) (current_q q) (reveal q) (started_at q).
Definition set_time_per_q (v : Z) (q : Quiz) : Quiz :=
  mkQuiz (title q) v (questions q) (participants q) (responses q)
         (scores q) (started q) (current_q q) (reveal q) (started_at q).
Definition set_questions (v : list Question) (q : Quiz) : Quiz :=
  mkQuiz (title q) (time_per_q q) v (participants q) (responses q)
         (scores q) (started q) (current_q q) (reveal q) (started_at q).
Definition set_participants (v : list string) (q : Quiz) : Quiz :=
  mkQuiz (title q) (time_per_q q) (questions q) v (responses q)
         (scores q) (started q) (current_q q) (reveal q) (started_at q).
Definition set_responses (v : gmap Z (list Response)) (q : Quiz) : Quiz :=
  mkQuiz (title q) (time_per_q q) (questions q) (participants q) v
         (scores q) (started q) (current_q q) (reveal q) (started_at q).
Definition set_scores (v : gmap string Z) (q : Quiz) : Quiz :=
  mkQuiz (title q) (time_per_q q) (questions q) (participants q) (responses q)
         v (started q) (current_q q) (reveal q) (started_at q).
Definition set_started (v : bool) (q : Quiz) : Quiz :=
  mkQuiz (title q) (time_per_q q) (questions q) (participants q) (responses q)
         (scores q) v (current_q q) (reveal q) (started_at q).
Definition set_current_q (v : Z) (q : Quiz) : Quiz :=
  mkQuiz (title q) (time_per_q q) (questions q) (participants q) (responses q)
         (scores q) (started q) v (reveal q) (started_at q).
Definition set_reveal (v : bool) (q : Quiz) : Quiz :=
  mkQuiz (title q) (time_per_q q) (questions q) (participants q) (responses q)
         (scores q) (started q) (current_q q) v (started_at q).
Definition set_started_at (v : Q) (q : Quiz) : Quiz :=
  mkQuiz (title q) (time_per_q q) (questions q) (participants q) (responses q)
         (scores q) (started q) (current_q q) (reveal q) v.

(** Python helpers. *)

(** Truthiness of a [str]: the empty string is false. *)
Definition truthy (s : string) : bool :=
  match s with EmptyString => false | _ => true end.

(** [d.get(k, [])] on [responses]. *)
Definition responses_get (k : Z) (rs : gmap Z (list Response)) : list Response :=
  default [] (rs !! k).

(** [d.get(k, 0)] on a dictionary of counters. *)
Definition get0 (k : string) (d : gmap string Z) : Z :=
  default 0 (d !! k).

(** [d.setdefault(k, v)], as a statement: the dictionary afterwards. *)
Definition setdefault {K V} `{Countable K} (k : K) (v : V) (d : gmap K V) : gmap K V :=
  match d !! k with
  | Some _ => d
  | None => <[k := v]> d
  end.

(** [len(l)] *)
Definition len {T} (l : list T) : Z := Z.of_nat (length l).

(** [next(q for q in quiz.questions if q.qid == quiz.current_q)]; [None]
    stands for the [StopIteration] raised when no question matches. *)
Definition current_row (quiz : Quiz) : option Question :=
  List.find (fun q => qid q =? current_q quiz) (questions quiz).

(** [s.split(")")[0]]: the part of [s] before the first [")"], the whole
    of [s] when it has none. *)
Fixpoint split_head (s : string) : string :=
  match s with
  | EmptyString => EmptyString
  | String c s' => if Ascii.eqb c ")" then EmptyString else String c (split_head s')
  end.

(** What a handler reports through [st.success], [st.error], ... ; [quiet]
    is a handler that shows nothing and [raised_StopIteration] the
    exception of [next(...)]. *)
Inductive Feedback :=
| st_success (msg : string)
| st_error (msg : string)
| st_warning (msg : string)
| st_info (msg : string)
| st_toast (msg : string)
| pill (msg : string)
| quiet
| raised_StopIteration.

(** ** Teacher page: configuration and questions *)

(** Lines 99-101: the title and time inputs are written back on every run. *)
Definition configure (new_title : string) (secs : Z) (quiz : Quiz) : Quiz :=
  set_time_per_q secs (set_title new_title quiz).

(** The [selectbox] and [radio] widgets only offer the four letters. *)
Inductive Letter := LA | LB | LC | LD.

Definition letter_str (l : Letter) : string :=
  match l with LA => "A" | LB => "B" | LC => "C" | LD => "D" end.

Definition letters : list string := ["A"; "B"; "C"; "D"]%string.

(** [quiz.questions[-1].qid + 1 if quiz.questions else 1] *)
Definition next_qid (qs : list Question) : Z :=
  match List.last (map Some qs) None with
  | Some q => qid q + 1
  | None => 1
  end.

(** The handler of "Agregar pregunta" (lines 111-118). *)
Definition add_question (qtext a b c d correct_ : string) (quiz : Quiz)
  : Quiz * Feedback :=
  if forallb truthy [qtext; a; b; c; d] then
    let q := mkQuestion (next_qid (questions quiz)) qtext a b c d correct_ in
    (set_questions (questions quiz ++ [q]) quiz, st_success "Pregunta agregada")
  else
    (quiz, st_error "Completa todas las opciones").

(** The handler of "Borrar todas" (lines 143-152). *)
Definition clear_quiz (quiz : Quiz) : Quiz * Feedback :=
  (set_started_at 0%Q
     (set_reveal false
        (set_current_q 0
           (set_started false
              (set_scores ∅
                 (set_responses ∅
                    (set_questions [] quiz)))))),
   st_toast "Cuestionario reiniciado").

(** ** Live control callbacks

    Each callback starts with [quiz = mgr.get(pin)]; the definitions below
    are the callbacks on the quiz found, [None] when the guard of the
    callback fails and it returns without touching the quiz. The lookup of
    the PIN is [on_pin] further down. *)

Definition start_quiz (now : Q) (quiz : Quiz) : option Quiz :=
  match questions quiz with
  | [] => None
  | _ :: _ =>
      Some (set_responses (<[1 := []]> (responses quiz))
              (set_started_at now
                 (set_reveal false
                    (set_current_q 1
                       (set_started true quiz)))))
  end.

Definition next_q (now : Q) (quiz : Quiz) : option Quiz :=
  if current_q quiz <? len (questions quiz) then
    let quiz1 := set_current_q (current_q quiz + 1) quiz in
    let quiz2 := set_started_at now (set_reveal false quiz1) in
    Some (set_responses (setdefault (current_q quiz2) [] (responses quiz2)) quiz2)
  else None.

Definition prev_q (now : Q) (quiz : Quiz) : option Quiz :=
  if 1 <? current_q quiz then
    Some (set_started_at now
            (set_reveal false
               (set_current_q (current_q quiz - 1) quiz)))
  else None.

Definition toggle_reveal (quiz : Quiz) : option Quiz :=
  Some (set_reveal (negb (reveal quiz)) quiz).

Definition stop_quiz (quiz : Quiz) : option Quiz :=
  Some (set_started_at 0%Q
          (set_reveal false
             (set_current_q 0
                (set_started false quiz)))).

(** The buttons of "3) Control en vivo" (lines 165-178). A button can be
    clicked when the page renders it and it is not [disabled]. *)
Inductive Button := Iniciar | Anterior | Siguiente | Revelar | Terminar.

Definition rendered (b : Button) (quiz : Quiz) : bool :=
  match b with
  | Iniciar => negb (started quiz)
  | Anterior | Siguiente | Revelar | Terminar => started quiz
  end.

Definition disabled (b : Button) (quiz : Quiz) : bool :=
  match b with
  | Iniciar => match questions quiz with [] => true | _ => false end
  | Anterior => current_q quiz <=? 1
  | Siguiente => len (questions quiz) <=? current_q quiz
  | Revelar | Terminar => false
  end.

Definition on_click (now : Q) (b : Button) : Quiz -> option Quiz :=
  match b with
  | Iniciar => start_quiz now
  | Anterior => prev_q now
  | Siguiente => next_q now
  | Revelar => toggle_reveal
  | Terminar => stop_quiz
  end.

(** A click on the teacher page: ignored when the button is not on the
    page or is disabled, otherwise the callback runs. *)
Definition click (now : Q) (b : Button) (quiz : Quiz) : Quiz :=
  if rendered b quiz && negb (disabled b quiz)
  then default quiz (on_click now b quiz)
  else quiz.

(** ** Student page *)

(** [name in quiz.participants] *)
Definition joined (name : string) (quiz : Quiz) : bool :=
  existsb (String.eqb name) (participants quiz).

(** The handler of "Unirme" (lines 279-293) once the PIN is found. *)
Definition join (name : string) (quiz : Quiz) : Quiz * Feedback :=
  if negb (truthy name) then (quiz, st_error "Ingresa PIN y nombre")
  else if joined name quiz then (quiz, quiet)
  else
    (set_scores (setdefault name 0 (scores quiz))
       (set_participants (participants quiz ++ [name]) quiz),
     quiet).

(** The loop of lines 314-318. *)
Definition answered (name : string) (quiz : Quiz) : bool :=
  existsb (fun r => String.eqb (r_name r) name)
          (responses_get (current_q quiz) (responses quiz)).

(** The four entries of the [st.radio] of line 321. *)
Definition radio_option (qrow : Question) (l : Letter) : string :=
  match l with
  | LA => "A) " ++ A qrow
  | LB => "B) " ++ B qrow
  | LC => "C) " ++ C qrow
  | LD => "D) " ++ D qrow
  end%string.

(** Lines 331-338: the response is appended and the score counted. *)
Definition save_answer (name letter : string) (correct_flag : bool) (quiz : Quiz) : Quiz :=
  let rs := setdefault (current_q quiz) [] (responses quiz) in
  let rs' := <[current_q quiz :=
                 responses_get (current_q quiz) rs
                   ++ [mkResponse name letter correct_flag]]> rs in
  let sc := if correct_flag
            then <[name := get0 name (scores quiz) + 1]> (scores quiz)
            else scores quiz in
  set_scores sc (set_responses rs' quiz).

(** The live part of the student page (lines 295-345) for a session that
    has joined as [name]; [choice] is the radio selection at the moment
    "Enviar respuesta" is pressed. *)
Definition submit_answer (name : string) (choice : option Letter) (quiz : Quiz)
  : Quiz * Feedback :=
  if negb (started quiz) then (quiz, st_info "Esperando a que el docente inicie")
  else
    match current_row quiz with
    | None => (quiz, raised_StopIteration)
    | Some qrow =>
        if answered name quiz then (quiz, pill "Respuesta enviada")
        else
          match choice with
          | None => (quiz, st_warning "Selecciona una opcion")
          | Some l =>
              let letter := split_head (radio_option qrow l) in
              let correct_flag := String.eqb letter (correct qrow) in
              (save_answer name letter correct_flag quiz,
               st_success "Respuesta enviada")
          end
    end.

(** ** Live panel of the teacher page *)

(** [int(x)] on a number: truncation toward zero. *)
Definition py_int (x : Q) : Z :=
  if Qle_bool 0 x then Qfloor x else Qceiling x.

(** [left] of lines 199 and 310. *)
Definition left (now : Q) (quiz : Quiz) : Z :=
  Z.max (py_int (inject_Z (time_per_q quiz) - (now - started_at quiz))%Q) 0.

(** One pass of the loop of lines 205-206. *)
Definition count_answer (counts : gmap string Z) (r : Response) : gmap string Z :=
  <[r_answer r := get0 (r_answer r) counts + 1]> counts.

(** Lines 203-208, for the answer list of question [k]; the page uses
    [k = quiz.current_q]. *)
Definition tally (k : Z) (quiz : Quiz) : gmap string Z :=
  let df := responses_get k (responses quiz) in
  let counts0 : gmap string Z := list_to_map (map (fun l => (l, 0)) letters) in
  let counts := fold_left count_answer df counts0 in
  list_to_map (map (fun l => (l, get0 l counts)) letters).

(** The sort key [lambda kv: (-kv[1], kv[0])] and the order of Python
    tuples on it. *)
Definition sort_key (kv : string * Z) : Z * string := (- kv.2, kv.1).

Definition tuple_leb (a b : Z * string) : bool :=
  (a.1 <? b.1) || ((a.1 =? b.1) && String.leb a.2 b.2).

Definition rank_le (x y : string * Z) : Prop :=
  tuple_leb (sort_key x) (sort_key y) = true.

Global Instance rank_le_dec x y : Decision (rank_le x y).
Proof. unfold rank_le. apply _. Defined.

(** [sorted(quiz.scores.items(), key=...)] (line 217). *)
Definition sorted_scores (quiz : Quiz) : list (string * Z) :=
  merge_sort rank_le (map_to_list (scores quiz)).

(** Lines 214-218: a caption when the dictionary is empty, else the table. *)
Inductive Ranking :=
| ranking_caption (msg : string)
| ranking_table (nombre : list string) (puntos : list Z).

Definition ranking (quiz : Quiz) : Ranking :=
  if decide (scores quiz = ∅) then ranking_caption "Sin respuestas correctas aun"
  else ranking_table (map fst (sorted_scores quiz)) (map snd (sorted_scores quiz)).

(** ** The registry *)

(** [f"{n}"] for an integer. *)
Definition pin_of (n : Z) : string := NilZero.string_of_int (Z.to_int n).

(** [QuizManager.new_pin]. [draws] are the successive results of
    [random.randint(1000, 9999)]; the result is [None] when the loop is
    still running after all of them. *)
Fixpoint new_pin (draws : list Z) (quizzes : gmap string Quiz)
  : option (string * gmap string Quiz) :=
  match draws with
  | [] => None
  | d :: draws' =>
      let pin := pin_of d in
      match quizzes !! pin with
      | None => Some (pin, <[pin := Quiz_new]> quizzes)
      | Some _ => new_pin draws' quizzes
      end
  end.

(** [QuizManager.get] and [QuizManager.update]. *)
Definition mgr_get (pin : string) (quizzes : gmap string Quiz) : option Quiz :=
  quizzes !! pin.

Definition mgr_update (pin : string) (quiz : Quiz) (quizzes : gmap string Quiz)
  : gmap string Quiz :=
  <[pin := quiz]> quizzes.

(** A callback [f(pin)]: nothing happens for an unknown PIN or a failed
    guard, otherwise the quiz is stored back. *)
Definition on_pin (f : Quiz -> option Quiz) (pin : string)
    (quizzes : gmap string Quiz) : gmap string Quiz :=
  match mgr_get pin quizzes with
  | None => quizzes
  | Some quiz =>
      match f quiz with
      | None => quizzes
      | Some quiz' => mgr_update pin quiz' quizzes
      end
  end.

(** ** Commands of one session *)

Inductive Command :=
| Configure (new_title : string) (secs : Z)
| AddQuestion (qtext a b c d : string) (correct_ : Letter)
| ClearQuiz
| StartSession (now : Q)
| NextQuestion (now : Q)
| PrevQuestion (now : Q)
| ToggleReveal
| StopSession
| Join (name : string)
| SubmitAnswer (name : string) (choice : option Letter).

(** What each action of the two pages does to the quiz. The student's
    answer form is only reached by a session that joined under [name]. *)
Definition step (quiz : Quiz) (c : Command) : Quiz :=
  match c with
  | Configure t s => configure t s quiz
  | AddQuestion qtext a b c d l => (add_question qtext a b c d (letter_str l) quiz).1
  | ClearQuiz => (clear_quiz quiz).1
  | StartSession now => click now Iniciar quiz
  | NextQuestion now => click now Siguiente quiz
  | PrevQuestion now => click now Anterior quiz
  | ToggleReveal => click 0%Q Revelar quiz
  | StopSession => click 0%Q Terminar quiz
  | Join name => (join name quiz).1
  | SubmitAnswer name choice =>
      if joined name quiz then (submit_answer name choice quiz).1 else quiz
  end.

Definition run_from (quiz : Quiz) (cmds : list Command) : Quiz :=
  fold_left step cmds quiz.

Definition run (cmds : list Command) : Quiz := run_from Quiz_new cmds.

(** The states a session can be in. *)
Definition reachable (quiz : Quiz) : Prop := exists cmds, quiz = run cmds.

(** ** Quantities the properties speak about *)

(** All responses of a quiz, over all questions. *)
Definition all_responses (quiz : Quiz) : list Response :=
  concat (map snd (map_to_list (responses quiz))).

(** Number of responses of [name] marked correct. *)
Definition correct_count (name : string) (rs : list Response) : Z :=
  len (filter (fun r => r_name r = name /\ r_correct r = true) rs).

(** Number of responses choosing [letter]. *)
Definition choice_count (letter : string) (rs : list Response) : Z :=
  len (filter (fun r => r_answer r = letter) rs).

End Model.

Import Model.

(** ** Definitions used by the statements *)

(** Well-formed sessions: question ids are [1, 2, ..., n] in list order, an
    idle quiz has [current_q = 0] and a started quiz points at one of its
    questions. *)
Definition ids_sequential (quiz : Quiz) : Prop :=
  map qid (questions quiz) = seqZ 1 (len (questions quiz)).

Definition wf (quiz : Quiz) : Prop :=
  ids_sequential quiz /\
  (started quiz = false -> current_q quiz = 0) /\
  (started quiz = true -> 1 <= current_q quiz <= len (questions quiz)).

(** The id rule in the words of the specification:
    [max(existing ids) + 1], and [1] when there is no question. *)
Definition max_qid (qs : list Question) : Z := foldr Z.max 0 (map qid qs).

Definition spec_next_id (qs : list Question) : Z :=
  match qs with
  | [] => 1
  | _ :: _ => max_qid qs + 1
  end.

(** An [AddQuestion] whose five text fields are all non-empty. *)
Definition complete_add (c : Command) : Prop :=
  match c with
  | AddQuestion qtext a b c d _ => forallb truthy [qtext; a; b; c; d] = true
  | _ => False
  end.

(** The names that answered question [k]. *)
Definition respondents (k : Z) (quiz : Quiz) : list string :=
  map r_name (responses_get k (responses quiz)).

(** At most one response per question and participant. *)
Definition unique_answers (quiz : Quiz) : Prop :=
  forall k, NoDup (respondents k quiz).

(** The invariant of the data model: every score is the number of the
    participant's responses marked correct. *)
Definition score_matches (quiz : Quiz) : Prop :=
  forall name, get0 name (scores quiz) = correct_count name (all_responses quiz).

(** The same count over a dictionary of answer lists. *)
Definition total_correct (name : string) (rs : gmap Z (list Response)) : Z :=
  correct_count name (concat (map snd (map_to_list rs))).

(** The remaining time in the words of the specification:
    [max(secondsPerQuestion - (now - phaseStartedAt), 0)]. *)
Definition spec_remaining (now : Q) (quiz : Quiz) : Q :=
  let r := (inject_Z (time_per_q quiz) - (now - started_at quiz))%Q in
  if Qle_bool 0 r then r else 0%Q.

(** The results [random.randint(1000, 9999)] can give. *)
Definition in_range (d : Z) : Prop := 1000 <= d <= 9999.

(** A join code: four characters, all decimal digits. *)
Definition is_digit (c : ascii) : bool :=
  (48 <=? N_of_ascii c)%N && (N_of_ascii c <=? 57)%N.

Fixpoint all_digits (s : string) : bool :=
  match s with
  | EmptyString => true
  | String c s' => is_digit c && all_digits s'
  end.

Definition four_digits (s : string) : bool :=
  (String.length s =? 4)%nat && all_digits s.

(** A registry in which each of the 9000 codes is taken. *)
Definition full_registry : gmap string Quiz :=
  list_to_map ((fun d => (pin_of d, Quiz_new)) <$> seqZ 1000 9000).

(** The handler of "Unirme" (lines 279-293) on the registry. The
    session state of the student ([joined], [joined_pin], [student_name])
    is [Some (pin, name)] once set, [None] before. *)
Definition unirme (pin name : string) (session : option (string * string))
    (quizzes : gmap string Quiz)
  : gmap string Quiz * option (string * string) * Feedback :=
  if negb (truthy pin) || negb (truthy name)
  then (quizzes, session, st_error "Ingresa PIN y nombre")
  else
    match mgr_get pin quizzes with
    | None => (quizzes, session, st_error "PIN invalido")
    | Some quiz =>
        if joined name quiz then (quizzes, Some (pin, name), quiet)
        else
          (mgr_update pin
             (set_scores (setdefault name 0 (scores quiz))
                (set_participants (participants quiz ++ [name]) quiz))
             quizzes,
           Some (pin, name), quiet)
    end.

(** What one action of a page can do to a quiz: nothing, or the effect of
    exactly one handler under the conditions in which the page runs it. *)
Inductive Effect (quiz : Quiz) : Quiz -> Prop :=
| eff_none : Effect quiz quiz
| eff_configure t s : Effect quiz (configure t s quiz)
| eff_add qtext a b c d l :
    forallb truthy [qtext; a; b; c; d] = true ->
    Effect quiz
      (set_questions
         (questions quiz ++
            [mkQuestion (next_qid (questions quiz)) qtext a b c d (letter_str l)])
         quiz)
| eff_clear : Effect quiz (clear_quiz quiz).1
| eff_start now quiz' :
    started quiz = false -> start_quiz now quiz = Some quiz' -> Effect quiz quiz'
| eff_next now quiz' :
    started quiz = true -> next_q now quiz = Some quiz' -> Effect quiz quiz'
| eff_prev now quiz' :
    started quiz = true -> prev_q now quiz = Some quiz' -> Effect quiz quiz'
| eff_reveal :
    started quiz = true -> Effect quiz (set_reveal (negb (reveal quiz)) quiz)
| eff_stop :
    started quiz = true ->
    Effect quiz
      (set_started_at 0%Q (set_reveal false (set_current_q 0 (set_started false quiz))))
| eff_join name :
    truthy name = true -> joined name quiz = false ->
    Effect quiz
      (set_scores (setdefault name 0 (scores quiz))
         (set_participants (participants quiz ++ [name]) quiz))
| eff_answer name l qrow :
    joined name quiz = true -> started quiz = true ->
    current_row quiz = Some qrow -> answered name quiz = false ->
    Effect quiz
      (save_answer name (letter_str l)
         (String.eqb (letter_str l) (correct qrow)) quiz).

(** A stored response fits a question when its letter is one of the four
    and its flag says whether the letter is the question's correct one. *)
Definition response_fits (q : Question) (r : Response) : Prop :=
  r_answer r ∈ letters /\ r_correct r = String.eqb (r_answer r) (correct q).

(** Invariants of the sessions the pages can produce. *)
Definition responses_fit (quiz : Quiz) : Prop :=
  forall k r, r ∈ responses_get k (responses quiz) ->
    exists q, q ∈ questions quiz /\ qid q = k /\ response_fits q r.

Definition answers_in_range (quiz : Quiz) : Prop :=
  forall k, is_Some (responses quiz !! k) -> 1 <= k <= len (questions quiz).

Definition roster_ok (quiz : Quiz) : Prop :=
  NoDup (participants quiz) /\ Forall (fun n => n <> EmptyString) (participants quiz).

Definition names_joined (quiz : Quiz) : Prop :=
  (forall k n, n ∈ respondents k quiz -> n ∈ participants quiz) /\
  (forall n, is_Some (scores quiz !! n) -> n ∈ participants quiz).

Definition idle_at_rest (quiz : Quiz) : Prop :=
  started quiz = false ->
  current_q quiz = 0 /\ reveal quiz = false /\ started_at quiz = 0%Q.

Definition score_covers (quiz : Quiz) : Prop :=
  forall name,
    0 <= correct_count name (all_responses quiz) <= get0 name (scores quiz).

(** Sample sessions used to exercise the statements. *)
Definition sample_question : Command := AddQuestion "2+2?" "3" "4" "5" "6" LB.

Definition quiz_one_question : Quiz := run [sample_question].

Definition quiz_answered : Quiz :=
  run [sample_question; StartSession 100%Q; Join "Ana"; SubmitAnswer "Ana" (Some LB)].

Definition quiz_started : Quiz := run [sample_question; StartSession 100%Q].

Definition quiz_two_questions : Quiz :=
  run [sample_question; AddQuestion "3+3?" "5" "6" "7" "8" LB; StartSession 100%Q].


Definition quiz_restarted : Quiz :=
  run_from quiz_answered [StopSession; StartSession 200%Q].

(** ** Basic facts *)

Lemma len_app {T} (l1 l2 : list T) : len (l1 ++ l2) = len l1 + len l2.
Proof. unfold len. rewrite length_app. lia. Qed.

Lemma len_nonneg {T} (l : list T) : 0 <= len l.
Proof. unfold len. lia. Qed.

Lemma next_qid_nil : next_qid [] = 1.
Proof. reflexivity. Qed.

Lemma next_qid_snoc qs q : next_qid (qs ++ [q]) = qid q + 1.
Proof.
  unfold next_qid. rewrite map_app. simpl.
  now rewrite last_last.
Qed.

Lemma seqZ_snoc (m : Z) (n : nat) :
  seqZ m (Z.of_nat (S n)) = seqZ m (Z.of_nat n) ++ [m + Z.of_nat n].
Proof.
  replace (Z.of_nat (S n)) with (Z.of_nat n + 1) by lia.
  rewrite seqZ_app by lia. reflexivity.
Qed.

(** With sequential ids the last id is the number of questions. *)
Lemma next_qid_sequential qs :
  map qid qs = seqZ 1 (len qs) -> next_qid qs = len qs + 1.
Proof.
  destruct qs as [|q0 qs0] using rev_ind; [reflexivity|].
  intros Hseq. rewrite next_qid_snoc.
  unfold len in *. rewrite length_app in *. simpl in *.
  replace (length qs0 + 1)%nat with (S (length qs0)) in * by lia.
  rewrite map_app, seqZ_snoc in Hseq. simpl in Hseq.
  apply app_inj_tail in Hseq as [_ Hq]. lia.
Qed.

Lemma foldr_max_seqZ (k : nat) (acc : Z) :
  0 <= acc ->
  foldr Z.max acc (seqZ 1 (Z.of_nat k)) = Z.max acc (Z.of_nat k).
Proof.
  revert acc. induction k as [|k IH]; intros acc Hacc.
  - simpl. lia.
  - rewrite seqZ_snoc, foldr_app. simpl. rewrite IH by lia. lia.
Qed.

Lemma max_qid_seq qs :
  map qid qs = seqZ 1 (len qs) -> max_qid qs = len qs.
Proof.
  unfold max_qid, len. intros ->. rewrite foldr_max_seqZ by lia. lia.
Qed.

(** ** Well-formedness is an invariant of the pages *)

Lemma wf_new : wf Quiz_new.
Proof. repeat split; simpl; intros; try lia; discriminate. Qed.

Lemma ids_sequential_add qs q :
  map qid qs = seqZ 1 (len qs) ->
  qid q = next_qid qs ->
  map qid (qs ++ [q]) = seqZ 1 (len (qs ++ [q])).
Proof.
  intros Hseq Hq. rewrite map_app, Hseq. simpl.
  rewrite Hq, (next_qid_sequential _ Hseq).
  unfold len. rewrite length_app. simpl.
  replace (length qs + 1)%nat with (S (length qs)) by lia.
  rewrite seqZ_snoc. do 2 f_equal. lia.
Qed.

Lemma wf_add_question qtext a b c d l quiz :
  wf quiz -> wf (add_question qtext a b c d l quiz).1.
Proof.
  intros Hwf. unfold add_question.
  destruct (forallb truthy _); simpl; [|exact Hwf].
  destruct quiz as [t tp qs ps rs sc st cq rv sa].
  unfold wf, ids_sequential in *; simpl in *.
  destruct Hwf as (Hids & Hidle & Hlive).
  split; [|split].
  - now apply ids_sequential_add.
  - exact Hidle.
  - intros Hst. rewrite len_app. specialize (Hlive Hst).
    unfold len at 2. simpl. lia.
Qed.

Lemma wf_click now b quiz : wf quiz -> wf (click now b quiz).
Proof.
  intros Hwf. unfold click.
  destruct (rendered b quiz && negb (disabled b quiz)) eqn:Hgate; [|exact Hwf].
  apply andb_true_iff in Hgate as [Hr Hd]. apply negb_true_iff in Hd.
  destruct quiz as [t tp qs ps rs sc st cq rv sa].
  unfold wf, ids_sequential in *.
  destruct b; simpl in *.
  - (* Iniciar *)
    destruct qs as [|q0 qs0]; [discriminate|].
    unfold start_quiz; simpl.
    destruct Hwf as (Hids & Hidle & Hlive).
    split; [exact Hids|split]; [discriminate|].
    intros _. unfold len. simpl. lia.
  - (* Anterior *)
    unfold prev_q; simpl. apply Z.leb_gt in Hd.
    destruct (1 <? cq) eqn:Hlt; simpl; [|exact Hwf].
    destruct Hwf as (Hids & Hidle & Hlive). subst st.
    split; [exact Hids|split]; [discriminate|].
    intros _. specialize (Hlive eq_refl). lia.
  - (* Siguiente *)
    unfold next_q; simpl. apply Z.leb_gt in Hd.
    destruct (cq <? len qs) eqn:Hlt; simpl; [|exact Hwf].
    destruct Hwf as (Hids & Hidle & Hlive). subst st.
    split; [exact Hids|split]; [discriminate|].
    intros _. specialize (Hlive eq_refl). lia.
  - (* Revelar *)
    exact Hwf.
  - (* Terminar *)
    destruct Hwf as (Hids & Hidle & Hlive).
    split; [exact Hids|split]; [reflexivity|discriminate].
Qed.

Lemma wf_join name quiz : wf quiz -> wf (join name quiz).1.
Proof.
  intros Hwf. unfold join.
  destruct (negb (truthy name)); [exact Hwf|].
  destruct (joined name quiz); [exact Hwf|].
  destruct quiz; exact Hwf.
Qed.

Lemma wf_submit_answer name choice quiz : wf quiz -> wf (submit_answer name choice quiz).1.
Proof.
  intros Hwf. unfold submit_answer.
  destruct (negb (started quiz)); [exact Hwf|].
  destruct (current_row quiz); [|exact Hwf].
  destruct (answered name quiz); [exact Hwf|].
  destruct choice; [|exact Hwf].
  destruct quiz; exact Hwf.
Qed.

Lemma wf_step quiz c : wf quiz -> wf (step quiz c).
Proof.
  intros Hwf. destruct c; simpl.
  - destruct quiz; exact Hwf.
  - now apply wf_add_question.
  - unfold wf, ids_sequential. simpl.
    split; [reflexivity|split]; [reflexivity|discriminate].
  - now apply wf_click.
  - now apply wf_click.
  - now apply wf_click.
  - now apply wf_click.
  - now apply wf_click.
  - now apply wf_join.
  - destruct (joined name quiz); [now apply wf_submit_answer | exact Hwf].
Qed.

Lemma wf_run_from quiz cmds : wf quiz -> wf (run_from quiz cmds).
Proof.
  revert quiz. induction cmds as [|c cmds IH]; intros quiz Hwf; [exact Hwf|].
  simpl. apply IH. now apply wf_step.
Qed.

Lemma reachable_wf quiz : reachable quiz -> wf quiz.
Proof. intros [cmds ->]. apply wf_run_from, wf_new. Qed.

Lemma reachable_step quiz c : reachable quiz -> reachable (step quiz c).
Proof.
  intros [cmds ->]. exists (cmds ++ [c]).
  unfold run, run_from. now rewrite fold_left_app.
Qed.

Lemma reachable_quiz_one_question : reachable quiz_one_question.
Proof. exists [sample_question]. reflexivity. Defined.

Lemma reachable_quiz_answered : reachable quiz_answered.
Proof.
  exists [sample_question; StartSession 100%Q; Join "Ana"; SubmitAnswer "Ana" (Some LB)].
  reflexivity.
Defined.

Lemma head_qid_sequential quiz q qs :
  ids_sequential quiz -> questions quiz = q :: qs -> qid q = 1.
Proof.
  unfold ids_sequential. intros Hids Hq. rewrite Hq in Hids.
  unfold len in Hids. simpl length in Hids.
  rewrite seqZ_cons in Hids by lia. simpl in Hids. congruence.
Qed.

Lemma lookup_qid_sequential quiz (i : nat) q :
  ids_sequential quiz -> questions quiz !! i = Some q -> qid q = 1 + Z.of_nat i.
Proof.
  unfold ids_sequential. intros Hids Hq.
  assert (Hm : map qid (questions quiz) !! i = Some (qid q)).
  { change (map qid (questions quiz)) with (qid <$> questions quiz).
    rewrite list_lookup_fmap, Hq. reflexivity. }
  rewrite Hids in Hm. apply lookup_seqZ in Hm. lia.
Qed.

(** ** ClearQuiz *)

(** C9. [ClearQuiz] (the "Borrar todas" handler) empties the question list
    and the answer map, empties the score dictionary so that every score
    reads as zero, sets the quiz to not started with [current_q = 0] and
    [reveal = False], and leaves the participant roster (and the title and
    time setting) exactly as before. *)
Theorem clear_quiz_resets_content_keeps_roster (quiz : Quiz) :
  let quiz' := (clear_quiz quiz).1 in
  step quiz ClearQuiz = quiz' /\
  questions quiz' = [] /\
  responses quiz' = ∅ /\
  scores quiz' = ∅ /\
  (forall name, get0 name (scores quiz') = 0) /\
  started quiz' = false /\
  current_q quiz' = 0 /\
  reveal quiz' = false /\
  participants quiz' = participants quiz /\
  title quiz' = title quiz /\
  time_per_q quiz' = time_per_q quiz.
Proof.
  destruct quiz; simpl. repeat split; reflexivity.
Qed.

(** ** StartSession *)

(** The callback [start_quiz] taken alone, outside the page: on a running
    quiz that has questions it is not rejected, it starts over and empties
    the answers of question 1. The page never calls it there. *)
Lemma start_quiz_runs_again_when_running :
  started quiz_answered = true /\
  questions quiz_answered <> [] /\
  exists quiz',
    start_quiz 200%Q quiz_answered = Some quiz' /\
    quiz' <> quiz_answered /\
    responses_get 1 (responses quiz_answered) <> [] /\
    responses_get 1 (responses quiz') = [].
Proof.
  split; [reflexivity|]. split; [discriminate|].
  eexists. split; [reflexivity|].
  split; [|split; [discriminate|reflexivity]].
  intros Heq. apply (f_equal (fun q => responses_get 1 (responses q))) in Heq.
  vm_compute in Heq. discriminate.
Qed.

(** The callback and the page together. [start_quiz] is rejected (a
    silent return) exactly when the question list is empty, and then
    nothing is mutated. It does not test the phase itself: the teacher
    page offers "Iniciar" only while the quiz is not started, so a
    StartSession issued through the page on a running quiz changes
    nothing. On success it sets [started], puts
    [current_q] to 1, which is the id of the first question, clears
    [reveal], stamps [started_at] with the current time and stores an empty
    answer list for question 1; nothing else changes. *)
Theorem start_quiz_rejected_only_without_questions
    (now : Q) (quiz : Quiz) (Hr : reachable quiz) :
  (questions quiz = [] ->
     start_quiz now quiz = None /\ step quiz (StartSession now) = quiz) /\
  (started quiz = true -> step quiz (StartSession now) = quiz) /\
  (forall q qs, questions quiz = q :: qs ->
     exists quiz',
       start_quiz now quiz = Some quiz' /\
       (started quiz = false -> step quiz (StartSession now) = quiz') /\
       started quiz' = true /\
       current_q quiz' = 1 /\ qid q = 1 /\
       reveal quiz' = false /\
       started_at quiz' = now /\
       responses quiz' = <[1 := []]> (responses quiz) /\
       responses_get (qid q) (responses quiz') = [] /\
       questions quiz' = questions quiz /\
       participants quiz' = participants quiz /\
       scores quiz' = scores quiz /\
       title quiz' = title quiz /\
       time_per_q quiz' = time_per_q quiz).
Proof.
  apply reachable_wf in Hr as (Hids & _ & _).
  destruct quiz as [t tp qs0 ps rs sc st cq rv sa].
  unfold step, click, start_quiz; simpl in *.
  split; [|split].
  - intros ->. split; [reflexivity|]. now rewrite andb_false_r.
  - now intros ->.
  - intros q qs ->.
    pose proof (head_qid_sequential _ q qs Hids eq_refl) as Hq1.
    eexists. split; [reflexivity|].
    split; [now intros ->|].
    rewrite Hq1. simpl.
    repeat split; try reflexivity.
    unfold responses_get. now rewrite lookup_insert_eq.
Qed.

Lemma start_quiz_rejected_only_without_questions_witness :
  reachable quiz_one_question /\
  exists quiz',
    start_quiz 100%Q quiz_one_question = Some quiz' /\
    step quiz_one_question (StartSession 100%Q) = quiz' /\
    current_q quiz' = 1.
Proof.
  split; [exact reachable_quiz_one_question|].
  destruct (start_quiz_rejected_only_without_questions
              100%Q quiz_one_question reachable_quiz_one_question)
    as (_ & _ & Hok).
  destruct (Hok _ _ eq_refl) as (quiz' & Hs & Hstep & _ & Hcur & _).
  exists quiz'. split; [exact Hs|]. split; [|exact Hcur].
  apply Hstep. reflexivity.
Defined.

(** ** NextQuestion *)

(** The callback [next_q] taken alone, outside the page: on a quiz that is
    not started and has a question it is not rejected, it moves
    [current_q] from 0 to 1 although the quiz stays idle. The page never
    calls it there. *)
Lemma next_q_runs_on_idle_quiz :
  started quiz_one_question = false /\
  exists quiz',
    next_q 100%Q quiz_one_question = Some quiz' /\
    quiz' <> quiz_one_question /\
    current_q quiz_one_question = 0 /\
    current_q quiz' = 1 /\
    started quiz' = false.
Proof.
  split; [reflexivity|].
  eexists. split; [reflexivity|].
  split; [|repeat split].
  intros Heq. apply (f_equal current_q) in Heq.
  vm_compute in Heq. discriminate.
Qed.

(** The callback and the page together. [next_q] is rejected (a silent
    return) exactly when [current_q] is at or past the last question, and
    then nothing is mutated. It does not test the phase itself: the
    teacher page offers "Siguiente" only while the quiz is started, so a
    NextQuestion issued through the page on an idle quiz changes nothing.
    On success it moves
    [current_q] to the id of the next question in the list, clears
    [reveal], stamps [started_at] and creates an empty answer list for the
    new question only when it has none; nothing else changes. *)
Theorem next_q_rejected_only_on_last_question
    (now : Q) (quiz : Quiz) (Hr : reachable quiz) :
  (len (questions quiz) <= current_q quiz ->
     next_q now quiz = None /\ step quiz (NextQuestion now) = quiz) /\
  (started quiz = false -> step quiz (NextQuestion now) = quiz) /\
  (current_q quiz < len (questions quiz) ->
     exists quiz' q,
       next_q now quiz = Some quiz' /\
       (started quiz = true -> step quiz (NextQuestion now) = quiz') /\
       questions quiz !! Z.to_nat (current_q quiz) = Some q /\
       current_q quiz' = qid q /\
       current_q quiz' = current_q quiz + 1 /\
       reveal quiz' = false /\
       started_at quiz' = now /\
       (responses quiz !! qid q = None ->
          responses quiz' = <[qid q := []]> (responses quiz)) /\
       (forall rs, responses quiz !! qid q = Some rs ->
          responses quiz' = responses quiz) /\
       started quiz' = started quiz /\
       questions quiz' = questions quiz /\
       participants quiz' = participants quiz /\
       scores quiz' = scores quiz /\
       title quiz' = title quiz /\
       time_per_q quiz' = time_per_q quiz).
Proof.
  apply reachable_wf in Hr as (Hids & Hidle & Hlive).
  destruct quiz as [t tp qs ps rs sc st cq rv sa].
  unfold step, click, next_q; simpl in *.
  split; [|split].
  - intros Hle. apply Z.ltb_ge in Hle as Hlt. rewrite Hlt.
    split; [reflexivity|]. apply Z.leb_le in Hle. now rewrite Hle, andb_false_r.
  - now intros ->.
  - intros Hlt. apply Z.ltb_lt in Hlt as Hltb. rewrite Hltb.
    assert (Hcq : 0 <= cq).
    { destruct st; [specialize (Hlive eq_refl); lia | rewrite Hidle; [lia|reflexivity]]. }
    destruct (lookup_lt_is_Some_2 qs (Z.to_nat cq)) as [q Hq].
    { unfold len in Hlt. lia. }
    pose proof (lookup_qid_sequential _ _ _ Hids Hq) as Hqid. simpl in Hqid.
    rewrite Z2Nat.id in Hqid by lia.
    replace (1 + cq) with (cq + 1) in Hqid by lia.
    eexists. exists q. split; [reflexivity|].
    split.
    { intros ->. simpl. apply Z.leb_gt in Hlt. rewrite Hlt. simpl.
      unfold next_q. simpl. now rewrite Hltb. }
    simpl. rewrite Hqid. unfold setdefault.
    repeat split; try reflexivity; try assumption.
    + now intros ->.
    + now intros rs0 ->.
Qed.

Lemma next_q_rejected_only_on_last_question_witness :
  reachable quiz_one_question /\
  next_q 100%Q quiz_one_question <> None /\
  step quiz_one_question (NextQuestion 100%Q) = quiz_one_question.
Proof.
  split; [exact reachable_quiz_one_question|].
  destruct (next_q_rejected_only_on_last_question
              100%Q quiz_one_question reachable_quiz_one_question)
    as (_ & Hidle & Hok).
  split.
  - destruct Hok as (quiz' & q & Hs & _); [reflexivity|].
    rewrite Hs. discriminate.
  - apply Hidle. reflexivity.
Defined.

(** ** AddQuestion *)

Lemma truthy_false s : truthy s = false <-> s = EmptyString.
Proof. destruct s; simpl; split; congruence. Qed.

Lemma truthy_true s : truthy s = true <-> s <> EmptyString.
Proof. destruct s; simpl; split; congruence. Qed.

Lemma spec_next_id_sequential qs :
  map qid qs = seqZ 1 (len qs) -> next_qid qs = spec_next_id qs.
Proof.
  intros Hseq. rewrite (next_qid_sequential _ Hseq).
  unfold spec_next_id. destruct qs as [|q qs]; [reflexivity|].
  now rewrite (max_qid_seq _ Hseq).
Qed.

Lemma complete_adds_sequential cmds : forall quiz,
  ids_sequential quiz ->
  Forall complete_add cmds ->
  ids_sequential (run_from quiz cmds) /\
  len (questions (run_from quiz cmds)) = len (questions quiz) + len cmds.
Proof.
  induction cmds as [|c cmds IH]; intros quiz Hids Hall.
  - simpl. split; [exact Hids|]. unfold len at 3. simpl. lia.
  - inversion Hall as [|c' cmds' Hc Hrest]; subst.
    destruct c; try (exfalso; exact Hc). unfold complete_add in Hc.
    simpl. unfold add_question. rewrite Hc. simpl.
    destruct (IH (set_questions
                    (questions quiz ++
                       [mkQuestion (next_qid (questions quiz)) qtext a b c d
                                   (letter_str correct_)]) quiz)) as [Hids' Hlen'].
    + destruct quiz; unfold ids_sequential in *; simpl in *.
      now apply ids_sequential_add.
    + exact Hrest.
    + split; [exact Hids'|]. rewrite Hlen'.
      destruct quiz; simpl. rewrite len_app. unfold len. simpl. lia.
Qed.

(** C5. [AddQuestion] is rejected (error message, quiz untouched) when
    any of the five text fields is empty; otherwise it appends a question
    whose id is [max(existing ids) + 1], or [1] when there are none. So
    after any sequence of successful AddQuestion calls on a session
    without questions (a new or a just cleared one) the ids are exactly
    [1, 2, ..., n] in insertion order. *)
Theorem add_question_assigns_next_id
    (qtext a b c d : string) (l : Letter) (quiz : Quiz) (Hr : reachable quiz) :
  (qtext = EmptyString \/ a = EmptyString \/ b = EmptyString \/
   c = EmptyString \/ d = EmptyString ->
     add_question qtext a b c d (letter_str l) quiz
     = (quiz, st_error "Completa todas las opciones"))%string /\
  (qtext <> EmptyString /\ a <> EmptyString /\ b <> EmptyString /\
   c <> EmptyString /\ d <> EmptyString ->
     add_question qtext a b c d (letter_str l) quiz
     = (set_questions
          (questions quiz ++
             [mkQuestion (spec_next_id (questions quiz)) qtext a b c d (letter_str l)])
          quiz,
        st_success "Pregunta agregada"))%string /\
  (forall quiz0 cmds,
     questions quiz0 = [] ->
     Forall complete_add cmds ->
     map qid (questions (run_from quiz0 cmds)) = seqZ 1 (len cmds)).
Proof.
  apply reachable_wf in Hr as (Hids & _ & _).
  split; [|split].
  - intros Hempty. unfold add_question.
    replace (forallb truthy [qtext; a; b; c; d]) with false; [reflexivity|].
    symmetry. simpl.
    destruct Hempty as [->|[->|[->|[->| ->]]]]; simpl;
      rewrite ?andb_false_r; reflexivity.
  - intros (Hq & Ha & Hb & Hc & Hd). unfold add_question.
    apply truthy_true in Hq, Ha, Hb, Hc, Hd. simpl.
    rewrite Hq, Ha, Hb, Hc, Hd. simpl.
    now rewrite (spec_next_id_sequential _ Hids).
  - intros quiz0 cmds Hnil Hall.
    destruct (complete_adds_sequential cmds quiz0) as [Hseq Hlen]; [|exact Hall|].
    + unfold ids_sequential. now rewrite Hnil.
    + unfold ids_sequential in Hseq. rewrite Hseq, Hlen, Hnil.
      f_equal.
Qed.

Lemma add_question_assigns_next_id_witness :
  reachable quiz_one_question /\
  (add_question "3+3?" "5" "6" "7" "8" "B" quiz_one_question).1
  = set_questions
      (questions quiz_one_question ++ [mkQuestion 2 "3+3?" "5" "6" "7" "8" "B"])
      quiz_one_question.
Proof.
  split; [exact reachable_quiz_one_question|].
  destruct (add_question_assigns_next_id
              "3+3?" "5" "6" "7" "8" LB quiz_one_question
              reachable_quiz_one_question) as (_ & Hok & _).
  simpl letter_str in Hok. rewrite Hok; [reflexivity|].
  repeat split; discriminate.
Defined.

(** ** RemainingSeconds *)

Lemma py_int_comp (x y : Q) : (x == y)%Q -> py_int x = py_int y.
Proof.
  intros Heq. unfold py_int.
  now rewrite (Qleb_comp 0%Q 0%Q (Qeq_refl 0) x y Heq),
              (Qfloor_comp x y Heq), (Qceiling_comp x y Heq).
Qed.

Lemma py_int_inject_Z (z : Z) : py_int (inject_Z z) = z.
Proof. unfold py_int. rewrite Qfloor_Z, Qceiling_Z. now destruct (Qle_bool _ _). Qed.

(** Clamping at zero makes truncation and rounding down agree. *)
Lemma max_py_int_floor (x : Q) : Z.max (py_int x) 0 = Z.max (Qfloor x) 0.
Proof.
  unfold py_int. destruct (Qle_bool 0 x) eqn:Hsign; [reflexivity|].
  assert (Hneg : (x <= 0)%Q).
  { apply Qnot_lt_le. intros Hpos. apply Qlt_le_weak in Hpos.
    apply Qle_bool_iff in Hpos. congruence. }
  pose proof (Qceiling_resp_le _ _ Hneg) as Hc.
  pose proof (Qfloor_resp_le _ _ Hneg) as Hf.
  change 0%Q with (inject_Z 0) in Hc, Hf.
  rewrite Qceiling_Z in Hc. rewrite Qfloor_Z in Hf. lia.
Qed.

Lemma left_floor_spec (now : Q) (quiz : Quiz) :
  left now quiz = Qfloor (spec_remaining now quiz).
Proof.
  unfold left, spec_remaining. rewrite max_py_int_floor.
  set (r := (inject_Z (time_per_q quiz) - (now - started_at quiz))%Q).
  destruct (Qle_bool 0 r) eqn:Hsign.
  - apply Qle_bool_iff in Hsign. apply Qfloor_resp_le in Hsign.
    change 0%Q with (inject_Z 0) in Hsign. rewrite Qfloor_Z in Hsign. lia.
  - assert (Hneg : (r <= 0)%Q).
    { apply Qnot_lt_le. intros Hpos. apply Qlt_le_weak in Hpos.
      apply Qle_bool_iff in Hpos. congruence. }
    apply Qfloor_resp_le in Hneg.
    change 0%Q with (inject_Z 0) in Hneg. rewrite Qfloor_Z in Hneg.
    change 0%Q with (inject_Z 0). rewrite Qfloor_Z. lia.
Qed.

Lemma left_at_stamp (quiz : Quiz) (now : Q) :
  0 <= time_per_q quiz -> started_at quiz = now -> left now quiz = time_per_q quiz.
Proof.
  intros Htpq <-. unfold left.
  rewrite (py_int_comp _ (inject_Z (time_per_q quiz))) by ring.
  rewrite py_int_inject_Z. lia.
Qed.

(** C7, as stated, fails: half a second after the question was shown the
    code reports 19 seconds where the formula gives 19.5. *)
Lemma left_differs_from_spec_formula :
  started_at quiz_started = 100%Q /\
  time_per_q quiz_started = 20 /\
  left (201 # 2) quiz_started = 19 /\
  (spec_remaining (201 # 2) quiz_started == 39 # 2)%Q /\
  ~ (inject_Z (left (201 # 2) quiz_started) == spec_remaining (201 # 2) quiz_started)%Q.
Proof.
  repeat split; try reflexivity.
  vm_compute. discriminate.
Qed.

(** C7, amended. The remaining time is
    [max(int(time_per_q - (now - started_at)), 0)] where [int] truncates
    toward zero: it is the value of the specification's formula rounded
    down to a whole number of seconds (and equal to it whenever the formula
    gives a whole number). It is never negative, and evaluated at the
    instant [started_at] was set, in particular right after a successful
    StartSession, NextQuestion or PrevQuestion, it equals [time_per_q]. *)
Theorem left_is_spec_formula_rounded_down
    (now : Q) (quiz : Quiz) (Htime : 0 <= time_per_q quiz) :
  left now quiz = Z.max (py_int (inject_Z (time_per_q quiz) - (now - started_at quiz))%Q) 0 /\
  left now quiz = Qfloor (spec_remaining now quiz) /\
  (inject_Z (left now quiz) <= spec_remaining now quiz)%Q /\
  (spec_remaining now quiz < inject_Z (left now quiz + 1))%Q /\
  (forall k : Z, (spec_remaining now quiz == inject_Z k)%Q -> left now quiz = k) /\
  0 <= left now quiz /\
  left (started_at quiz) quiz = time_per_q quiz /\
  (forall b quiz',
     b = Iniciar \/ b = Siguiente \/ b = Anterior ->
     on_click now b quiz = Some quiz' ->
     left now quiz' = time_per_q quiz /\ time_per_q quiz' = time_per_q quiz).
Proof.
  split; [reflexivity|].
  split; [apply left_floor_spec|].
  rewrite left_floor_spec.
  split; [apply Qfloor_le|].
  split; [apply Qlt_floor|].
  split.
  { intros k Hk. now rewrite (Qfloor_comp _ _ Hk), Qfloor_Z. }
  split.
  { rewrite <- left_floor_spec. unfold left. lia. }
  split.
  { now apply left_at_stamp. }
  intros b quiz' Hb Hclick.
  assert (Hq' : time_per_q quiz' = time_per_q quiz /\ started_at quiz' = now).
  { destruct quiz as [t tp qs ps rs sc st cq rv sa].
    destruct Hb as [->|[->| ->]]; simpl in Hclick.
    - unfold start_quiz in Hclick. simpl in Hclick.
      destruct qs; [discriminate|]. now inversion Hclick.
    - unfold next_q in Hclick. simpl in Hclick.
      destruct (cq <? len qs); [|discriminate]. now inversion Hclick.
    - unfold prev_q in Hclick. simpl in Hclick.
      destruct (1 <? cq); [|discriminate]. now inversion Hclick. }
  destruct Hq' as [Htp Hsa]. split; [|exact Htp].
  rewrite <- Htp. apply left_at_stamp; [lia|exact Hsa].
Qed.

Lemma left_is_spec_formula_rounded_down_witness :
  0 <= time_per_q quiz_started /\
  left (201 # 2) quiz_started = Qfloor (spec_remaining (201 # 2) quiz_started) /\
  left (started_at quiz_started) quiz_started = 20.
Proof.
  assert (Htime : 0 <= time_per_q quiz_started) by (vm_compute; discriminate).
  split; [exact Htime|].
  destruct (left_is_spec_formula_rounded_down (201 # 2) quiz_started Htime)
    as (_ & Hfloor & _).
  destruct (left_is_spec_formula_rounded_down (started_at quiz_started) quiz_started Htime)
    as (_ & _ & _ & _ & _ & _ & Hstamp & _).
  split; [exact Hfloor | exact Hstamp].
Defined.

(** ** Tally *)

Lemma get0_count_answer (l : string) (counts : gmap string Z) (r : Response) :
  get0 l (count_answer counts r)
  = get0 l counts + (if decide (r_answer r = l) then 1 else 0).
Proof.
  unfold count_answer, get0. destruct (decide (r_answer r = l)) as [->|Hne].
  - now rewrite lookup_insert_eq.
  - rewrite lookup_insert_ne by exact Hne. lia.
Qed.

Lemma choice_count_cons (l : string) (r : Response) (rs : list Response) :
  choice_count l (r :: rs)
  = (if decide (r_answer r = l) then 1 else 0) + choice_count l rs.
Proof.
  unfold choice_count, len. rewrite filter_cons.
  destruct (decide (r_answer r = l)); simpl length; lia.
Qed.

Lemma get0_fold_count_answer (l : string) (df : list Response) :
  forall counts,
    get0 l (fold_left count_answer df counts) = get0 l counts + choice_count l df.
Proof.
  induction df as [|r df IH]; intros counts.
  - simpl. unfold choice_count, len. simpl. lia.
  - simpl fold_left. rewrite IH, get0_count_answer, choice_count_cons. lia.
Qed.

Lemma tally_lookup (k : Z) (quiz : Quiz) (l : string) :
  tally k quiz !! l
  = if decide (l ∈ letters)
    then Some (choice_count l (responses_get k (responses quiz)))
    else None.
Proof.
  unfold tally, letters. simpl map. simpl list_to_map.
  destruct (decide (l ∈ _)) as [Hin|Hout].
  - repeat (apply elem_of_cons in Hin as [->|Hin]);
      [..|now apply elem_of_nil in Hin];
      repeat (rewrite lookup_insert_eq || rewrite lookup_insert_ne by discriminate);
      rewrite get0_fold_count_answer; unfold get0;
      repeat (rewrite lookup_insert_eq || rewrite lookup_insert_ne by discriminate);
      simpl; reflexivity.
  - repeat (rewrite lookup_insert_ne;
            [|intros <-; apply Hout; set_solver]).
    apply lookup_empty.
Qed.

(** C10. The tally of any question id, also one without an entry in
    [responses], is a dictionary with exactly the keys A, B, C and D; each
    count is the number of responses of that question choosing the letter,
    so all four are zero when there are no responses. The computation has
    no failing case. *)
Theorem tally_total_over_question_ids (k : Z) (quiz : Quiz) :
  dom (tally k quiz) = list_to_set letters /\
  (forall l, l ∈ letters ->
     tally k quiz !! l = Some (choice_count l (responses_get k (responses quiz)))) /\
  (forall l, l ∉ letters -> tally k quiz !! l = None) /\
  (responses quiz !! k = None ->
     tally k quiz = list_to_map (map (fun l => (l, 0)) letters)).
Proof.
  split; [|split; [|split]].
  - apply set_eq. intros l. rewrite elem_of_dom, tally_lookup, elem_of_list_to_set.
    destruct (decide (l ∈ letters)) as [Hin|Hout].
    + split; [now intros _ | intros _; eexists; reflexivity].
    + split; [now intros [? ?] | contradiction].
  - intros l Hin. rewrite tally_lookup. now destruct (decide (l ∈ letters)).
  - intros l Hout. rewrite tally_lookup. now destruct (decide (l ∈ letters)).
  - intros Hnone. unfold tally, responses_get. rewrite Hnone. reflexivity.
Qed.

Lemma tally_total_over_question_ids_witness :
  responses quiz_answered !! 7 = None /\
  tally 7 quiz_answered = list_to_map (map (fun l => (l, 0)) letters) /\
  tally 1 quiz_answered !! "B"%string = Some 1.
Proof.
  assert (Hnone : responses quiz_answered !! 7 = None) by reflexivity.
  split; [exact Hnone|].
  destruct (tally_total_over_question_ids 7 quiz_answered) as (_ & _ & _ & Hzero).
  destruct (tally_total_over_question_ids 1 quiz_answered) as (_ & Hcount & _).
  split; [exact (Hzero Hnone)|].
  rewrite Hcount; [reflexivity|]. unfold letters. set_solver.
Defined.

(** ** SubmitAnswer: one response per question and participant *)

Lemma responses_get_setdefault (k k' : Z) (rs : gmap Z (list Response)) :
  responses_get k (setdefault k' [] rs) = responses_get k rs.
Proof.
  unfold setdefault, responses_get.
  destruct (rs !! k') as [l|] eqn:Hk'; [reflexivity|].
  destruct (decide (k' = k)) as [->|Hne].
  - now rewrite lookup_insert_eq, Hk'.
  - now rewrite lookup_insert_ne.
Qed.

Lemma responses_get_save_answer (k : Z) name letter flag quiz :
  responses_get k (responses (save_answer name letter flag quiz))
  = if decide (k = current_q quiz)
    then responses_get k (responses quiz) ++ [mkResponse name letter flag]
    else responses_get k (responses quiz).
Proof.
  destruct quiz as [t tp qs ps rs sc st cq rv sa]. unfold save_answer. simpl.
  destruct (decide (k = cq)) as [->|Hne].
  - unfold responses_get at 1. rewrite lookup_insert_eq. simpl.
    now rewrite responses_get_setdefault.
  - unfold responses_get at 1. rewrite lookup_insert_ne by congruence.
    fold (responses_get k (setdefault cq [] rs)).
    apply responses_get_setdefault.
Qed.

Lemma answered_iff name quiz :
  answered name quiz = true <-> name ∈ respondents (current_q quiz) quiz.
Proof.
  unfold answered, respondents. rewrite existsb_exists, list_elem_of_In, in_map_iff.
  split; intros (r & H1 & H2); exists r.
  - apply String.eqb_eq in H2. now split.
  - split; [exact H2|]. now apply String.eqb_eq.
Qed.

Lemma answered_false_iff name quiz :
  answered name quiz = false <-> name ∉ respondents (current_q quiz) quiz.
Proof.
  rewrite <- answered_iff. destruct (answered name quiz); split; congruence.
Qed.

Lemma current_row_live quiz :
  wf quiz -> started quiz = true -> exists qrow, current_row quiz = Some qrow.
Proof.
  intros (Hids & _ & Hlive) Hst. specialize (Hlive Hst).
  unfold current_row.
  destruct (List.find _ _) as [qrow|] eqn:Hfind; [now exists qrow|].
  exfalso.
  destruct (lookup_lt_is_Some_2 (questions quiz) (Z.to_nat (current_q quiz - 1)))
    as [q Hq].
  { unfold len in Hlive. lia. }
  pose proof (lookup_qid_sequential _ _ _ Hids Hq) as Hqid.
  rewrite Z2Nat.id in Hqid by lia.
  apply list_elem_of_lookup_2, list_elem_of_In in Hq.
  apply (find_none _ _ Hfind) in Hq. simpl in Hq.
  apply Z.eqb_neq in Hq. lia.
Qed.

Lemma unique_answers_submit name choice quiz :
  unique_answers quiz -> unique_answers (submit_answer name choice quiz).1.
Proof.
  intros Huniq. unfold submit_answer.
  destruct (negb (started quiz)); [exact Huniq|].
  destruct (current_row quiz) as [qrow|]; [|exact Huniq].
  destruct (answered name quiz) eqn:Hans; [exact Huniq|].
  destruct choice as [l|]; [|exact Huniq].
  simpl. intros k. unfold respondents.
  rewrite responses_get_save_answer.
  destruct (decide (k = current_q quiz)) as [->|Hne]; [|apply Huniq].
  rewrite map_app. simpl. apply NoDup_app. split; [apply Huniq|].
  split; [|apply NoDup_singleton].
  intros x Hx Hx'. apply list_elem_of_singleton in Hx'. subst x.
  apply answered_false_iff in Hans. now apply Hans.
Qed.

Lemma unique_answers_click now b quiz :
  unique_answers quiz -> unique_answers (click now b quiz).
Proof.
  intros Huniq. unfold click.
  destruct (rendered b quiz && negb (disabled b quiz)); [|exact Huniq].
  destruct quiz as [t tp qs ps rs sc st cq rv sa].
  destruct b; simpl.
  - unfold start_quiz. simpl. destruct qs; [exact Huniq|]. simpl.
    intros k. unfold respondents, responses_get. simpl.
    destruct (decide (k = 1)) as [->|Hne].
    + rewrite lookup_insert_eq. constructor.
    + rewrite lookup_insert_ne by congruence. apply (Huniq k).
  - unfold prev_q. simpl. destruct (1 <? cq); exact Huniq.
  - unfold next_q. simpl. destruct (cq <? len qs); [|exact Huniq]. simpl.
    intros k. unfold respondents. simpl.
    rewrite responses_get_setdefault. apply (Huniq k).
  - exact Huniq.
  - exact Huniq.
Qed.

Lemma unique_answers_step quiz c : unique_answers quiz -> unique_answers (step quiz c).
Proof.
  intros Huniq. destruct c; simpl.
  - destruct quiz; exact Huniq.
  - unfold add_question. destruct (forallb truthy _); [|exact Huniq].
    destruct quiz; exact Huniq.
  - intros k. unfold respondents, responses_get. simpl.
    rewrite lookup_empty. constructor.
  - now apply unique_answers_click.
  - now apply unique_answers_click.
  - now apply unique_answers_click.
  - now apply unique_answers_click.
  - now apply unique_answers_click.
  - unfold join. destruct (negb (truthy name)); [exact Huniq|].
    destruct (joined name quiz); [exact Huniq|]. destruct quiz; exact Huniq.
  - destruct (joined name quiz); [|exact Huniq]. now apply unique_answers_submit.
Qed.

Lemma unique_answers_reachable quiz : reachable quiz -> unique_answers quiz.
Proof.
  intros [cmds ->]. unfold run.
  assert (Hgen : forall q, unique_answers q -> unique_answers (run_from q cmds)).
  { induction cmds as [|c cmds IH]; intros q Hq; [exact Hq|].
    simpl. apply IH. now apply unique_answers_step. }
  apply Hgen. intros k. unfold respondents, responses_get. simpl.
  rewrite lookup_empty. constructor.
Qed.

Lemma submit_answer_success_inv name choice quiz msg :
  (submit_answer name choice quiz).2 = st_success msg ->
  exists qrow l,
    started quiz = true /\ current_row quiz = Some qrow /\
    answered name quiz = false /\ choice = Some l /\
    (submit_answer name choice quiz).1
    = save_answer name (split_head (radio_option qrow l))
        (String.eqb (split_head (radio_option qrow l)) (correct qrow)) quiz.
Proof.
  unfold submit_answer.
  destruct (started quiz); simpl; [|discriminate].
  destruct (current_row quiz) as [qrow|]; [|discriminate].
  destruct (answered name quiz); [discriminate|].
  destruct choice as [l|]; [|discriminate].
  simpl. intros _. now exists qrow, l.
Qed.

Lemma save_answer_frame name letter flag quiz :
  started (save_answer name letter flag quiz) = started quiz /\
  current_q (save_answer name letter flag quiz) = current_q quiz /\
  questions (save_answer name letter flag quiz) = questions quiz /\
  participants (save_answer name letter flag quiz) = participants quiz.
Proof. destruct quiz; repeat split. Qed.

(** C1. In every reachable state the answer list of each question holds
    at most one response per participant name. When a response of [name]
    for the current question exists, the answer form is replaced by the
    "Respuesta enviada" pill and a submission changes nothing: no response
    is added and no score changes. In particular a second submission right
    after an accepted one is rejected. *)
Theorem submit_answer_at_most_once
    (quiz : Quiz) (name : string) (choice : option Letter) (Hr : reachable quiz) :
  (forall k, NoDup (respondents k quiz)) /\
  (name ∈ respondents (current_q quiz) quiz ->
     (submit_answer name choice quiz).1 = quiz /\
     step quiz (SubmitAnswer name choice) = quiz /\
     (started quiz = true ->
        (submit_answer name choice quiz).2 = pill "Respuesta enviada")) /\
  (forall first msg,
     (submit_answer name first quiz).2 = st_success msg ->
     let quiz1 := (submit_answer name first quiz).1 in
     name ∈ respondents (current_q quiz1) quiz1 /\
     length (responses_get (current_q quiz) (responses quiz1))
     = S (length (responses_get (current_q quiz) (responses quiz))) /\
     submit_answer name choice quiz1 = (quiz1, pill "Respuesta enviada") /\
     step quiz1 (SubmitAnswer name choice) = quiz1).
Proof.
  pose proof (reachable_wf _ Hr) as Hwf.
  assert (Hdup : forall q, name ∈ respondents (current_q q) q ->
            (submit_answer name choice q).1 = q /\
            step q (SubmitAnswer name choice) = q /\
            (started q = true -> forall qrow, current_row q = Some qrow ->
               submit_answer name choice q = (q, pill "Respuesta enviada"))).
  { intros q Hin. apply answered_iff in Hin.
    assert (H1 : (submit_answer name choice q).1 = q).
    { unfold submit_answer. destruct (negb (started q)); [reflexivity|].
      destruct (current_row q); [|reflexivity]. now rewrite Hin. }
    split; [exact H1|]. split.
    - simpl. rewrite H1. now destruct (joined name q).
    - intros Hst qrow Hrow. unfold submit_answer. now rewrite Hst, Hrow, Hin. }
  split; [apply unique_answers_reachable, Hr|]. split.
  - intros Hin. destruct (Hdup quiz Hin) as (H1 & H2 & H3).
    split; [exact H1|]. split; [exact H2|].
    intros Hst. destruct (current_row_live quiz Hwf Hst) as [qrow Hrow].
    now rewrite (H3 Hst qrow Hrow).
  - intros first msg Hok. simpl.
    destruct (submit_answer_success_inv _ _ _ _ Hok)
      as (qrow & l & Hst & Hrow & Hans & -> & Hsave).
    rewrite Hsave.
    destruct (save_answer_frame name (split_head (radio_option qrow l))
                (String.eqb (split_head (radio_option qrow l)) (correct qrow)) quiz)
      as (Hst' & Hcq' & Hqs' & _).
    set (quiz1 := save_answer _ _ _ quiz) in *.
    assert (Hin1 : name ∈ respondents (current_q quiz1) quiz1).
    { unfold respondents. rewrite Hcq'. unfold quiz1.
      rewrite responses_get_save_answer.
      destruct (decide _) as [_|Hne]; [|contradiction].
      rewrite map_app. apply elem_of_app. right. simpl. apply list_elem_of_here. }
    split; [exact Hin1|]. split.
    { unfold quiz1. rewrite responses_get_save_answer.
      destruct (decide _) as [_|Hne]; [|contradiction].
      rewrite length_app. simpl. lia. }
    destruct (Hdup quiz1 Hin1) as (_ & H2 & H3).
    split; [|exact H2].
    apply (H3 (eq_trans Hst' Hst) qrow).
    unfold current_row. now rewrite Hcq', Hqs'.
Qed.

Lemma submit_answer_at_most_once_witness :
  reachable quiz_answered /\
  "Ana"%string ∈ respondents (current_q quiz_answered) quiz_answered /\
  step quiz_answered (SubmitAnswer "Ana" (Some LC)) = quiz_answered.
Proof.
  assert (Hin : "Ana"%string ∈ respondents (current_q quiz_answered) quiz_answered).
  { apply list_elem_of_here. }
  split; [exact reachable_quiz_answered|]. split; [exact Hin|].
  destruct (submit_answer_at_most_once quiz_answered "Ana" (Some LC)
              reachable_quiz_answered) as (_ & Hdup & _).
  exact (proj1 (proj2 (Hdup Hin))).
Defined.

(** ** Scores against the responses marked correct *)

Lemma correct_count_app name l1 l2 :
  correct_count name (l1 ++ l2) = correct_count name l1 + correct_count name l2.
Proof. unfold correct_count. rewrite filter_app. apply len_app. Qed.

Lemma correct_count_nonneg name l : 0 <= correct_count name l.
Proof. apply len_nonneg. Qed.

Lemma correct_count_entries_perm name (kvs kvs' : list (Z * list Response)) :
  kvs ≡ₚ kvs' ->
  correct_count name (concat (map snd kvs)) = correct_count name (concat (map snd kvs')).
Proof.
  induction 1 as [|kv l l' _ IH|kv1 kv2 l|l1 l2 l3 _ IH1 _ IH2]; simpl.
  - reflexivity.
  - now rewrite !correct_count_app, IH.
  - rewrite !correct_count_app. lia.
  - congruence.
Qed.

Lemma total_correct_empty name : total_correct name ∅ = 0.
Proof. unfold total_correct. now rewrite map_to_list_empty. Qed.

Lemma total_correct_insert name (k : Z) (l : list Response) (rs : gmap Z (list Response)) :
  total_correct name (<[k := l]> rs)
  = total_correct name rs - correct_count name (responses_get k rs) + correct_count name l.
Proof.
  unfold total_correct, responses_get.
  destruct (rs !! k) as [old|] eqn:Hk; simpl.
  - rewrite <- (insert_delete_eq rs).
    rewrite (correct_count_entries_perm name _ _
               (map_to_list_insert (delete k rs) k l (lookup_delete_eq rs k))).
    rewrite <- (correct_count_entries_perm name _ _ (map_to_list_delete rs k old Hk)).
    simpl. rewrite !correct_count_app. lia.
  - rewrite (correct_count_entries_perm name _ _ (map_to_list_insert rs k l Hk)).
    simpl. rewrite correct_count_app.
    change (correct_count name []) with 0. lia.
Qed.

Lemma total_correct_setdefault name (k : Z) (rs : gmap Z (list Response)) :
  total_correct name (setdefault k [] rs) = total_correct name rs.
Proof.
  unfold setdefault. destruct (rs !! k) as [old|] eqn:Hk; [reflexivity|].
  rewrite total_correct_insert. unfold responses_get. rewrite Hk. simpl.
  change (correct_count name []) with 0. lia.
Qed.

Lemma correct_count_single name r :
  correct_count name [r]
  = if decide (r_name r = name /\ r_correct r = true) then 1 else 0.
Proof.
  unfold correct_count, len. rewrite filter_cons, filter_nil.
  now destruct (decide _).
Qed.

Lemma score_matches_save_answer who letter flag quiz :
  score_matches quiz -> score_matches (save_answer who letter flag quiz).
Proof.
  intros Hsm name. specialize (Hsm name).
  destruct quiz as [t tp qs ps rs sc st cq rv sa].
  unfold score_matches, all_responses, save_answer in *. simpl in *.
  fold (total_correct name rs) in Hsm.
  fold (total_correct name
          (<[cq := responses_get cq (setdefault cq [] rs) ++ [mkResponse who letter flag]]>
             (setdefault cq [] rs))).
  rewrite total_correct_insert, total_correct_setdefault, correct_count_app,
          correct_count_single. simpl.
  destruct flag.
  - destruct (decide (who = name)) as [->|Hne].
    + unfold get0 at 1. rewrite lookup_insert_eq. simpl.
      destruct (decide _) as [_|Hno]; [lia|]. exfalso. now apply Hno.
    + unfold get0 at 1. rewrite lookup_insert_ne by exact Hne.
      fold (get0 name sc).
      destruct (decide _) as [[Heq _]|_]; [contradiction|lia].
  - destruct (decide _) as [[_ Hf]|_]; [discriminate|lia].
Qed.

(** Every action keeps the scores in step with the responses, except a
    StartSession that finds responses stored for question 1. *)
Lemma score_matches_step quiz c :
  score_matches quiz ->
  (forall now, c = StartSession now -> responses_get 1 (responses quiz) = []) ->
  score_matches (step quiz c).
Proof.
  intros Hsm Hstart. destruct c; simpl.
  - destruct quiz; exact Hsm.
  - unfold add_question. destruct (forallb truthy _); [|exact Hsm].
    destruct quiz; exact Hsm.
  - intros name. unfold all_responses. simpl.
    fold (total_correct name ∅). now rewrite total_correct_empty.
  - specialize (Hstart now eq_refl). unfold click.
    destruct (_ && _); [|exact Hsm].
    destruct quiz as [t tp qs ps rs sc st cq rv sa]. simpl in *.
    unfold start_quiz. simpl. destruct qs; [exact Hsm|]. simpl.
    intros name. specialize (Hsm name).
    unfold all_responses in *. simpl in *.
    fold (total_correct name rs) in Hsm. fold (total_correct name (<[1 := []]> rs)).
    rewrite total_correct_insert, Hstart.
    change (correct_count name []) with 0. lia.
  - unfold click. destruct (_ && _); [|exact Hsm].
    destruct quiz as [t tp qs ps rs sc st cq rv sa]. simpl.
    unfold next_q. simpl. destruct (cq <? len qs); [|exact Hsm]. simpl.
    intros name. specialize (Hsm name).
    unfold all_responses in *. simpl in *.
    fold (total_correct name rs) in Hsm.
    fold (total_correct name (setdefault (cq + 1) [] rs)).
    now rewrite total_correct_setdefault.
  - unfold click. destruct (_ && _); [|exact Hsm].
    destruct quiz as [t tp qs ps rs sc st cq rv sa]. simpl.
    unfold prev_q. simpl. destruct (1 <? cq); exact Hsm.
  - unfold click. destruct (_ && _); [|exact Hsm]. destruct quiz; exact Hsm.
  - unfold click. destruct (_ && _); [|exact Hsm]. destruct quiz; exact Hsm.
  - unfold join. destruct (negb (truthy name)); [exact Hsm|].
    destruct (joined name quiz); [exact Hsm|].
    destruct quiz as [t tp qs ps rs sc st cq rv sa]. simpl.
    intros who. specialize (Hsm who). unfold all_responses in *. simpl in *.
    rewrite <- Hsm. unfold setdefault, get0.
    destruct (sc !! name) eqn:Hn; [reflexivity|].
    destruct (decide (name = who)) as [->|Hne].
    + now rewrite lookup_insert_eq, Hn.
    + now rewrite lookup_insert_ne.
  - destruct (joined name quiz); [|exact Hsm].
    unfold submit_answer.
    destruct (negb (started quiz)); [exact Hsm|].
    destruct (current_row quiz); [|exact Hsm].
    destruct (answered name quiz); [exact Hsm|].
    destruct choice; [|exact Hsm].
    now apply score_matches_save_answer.
Qed.

(** C2 fails on the code. Ana answers question 1 correctly, the teacher
    stops the session and starts it again: [start_quiz] empties the answer
    list of question 1 but leaves the scores, so Ana keeps score 1 with no
    response marked correct; answering again then gives her 2 points for
    one stored response. *)
Theorem restart_breaks_score_invariant :
  reachable quiz_restarted /\
  get0 "Ana" (scores quiz_answered) = 1 /\
  correct_count "Ana" (all_responses quiz_answered) = 1 /\
  get0 "Ana" (scores quiz_restarted) = 1 /\
  correct_count "Ana" (all_responses quiz_restarted) = 0 /\
  get0 "Ana" (scores (step quiz_restarted (SubmitAnswer "Ana" (Some LB)))) = 2 /\
  correct_count "Ana"
    (all_responses (step quiz_restarted (SubmitAnswer "Ana" (Some LB)))) = 1.
Proof.
  split.
  - exists [sample_question; StartSession 100%Q; Join "Ana";
            SubmitAnswer "Ana" (Some LB); StopSession; StartSession 200%Q].
    vm_compute. reflexivity.
  - repeat split; vm_compute; reflexivity.
Qed.

(** ** Leaderboard *)

Lemma string_leb_trans (s1 : string) :
  forall s2 s3,
    String.leb s1 s2 = true -> String.leb s2 s3 = true -> String.leb s1 s3 = true.
Proof.
  unfold String.leb.
  induction s1 as [|a s1 IH]; intros [|b s2] [|c s3]; simpl;
    try reflexivity; try discriminate.
  unfold Ascii.compare.
  destruct (N.compare_spec (N_of_ascii a) (N_of_ascii b)) as [Hab|Hab|Hab],
           (N.compare_spec (N_of_ascii b) (N_of_ascii c)) as [Hbc|Hbc|Hbc],
           (N.compare_spec (N_of_ascii a) (N_of_ascii c)) as [Hac|Hac|Hac];
    try discriminate; try reflexivity; try lia.
  apply IH.
Qed.

Lemma rank_le_iff (n1 n2 : string) (s1 s2 : Z) :
  rank_le (n1, s1) (n2, s2) <-> s2 < s1 \/ (s1 = s2 /\ String.leb n1 n2 = true).
Proof.
  unfold rank_le, tuple_leb, sort_key. simpl.
  rewrite orb_true_iff, andb_true_iff, Z.ltb_lt, Z.eqb_eq.
  split; intros [H|[H1 H2]]; (left; lia) || (right; split; [lia|exact H2]).
Qed.

Local Instance rank_le_total : Total rank_le.
Proof.
  intros [n1 s1] [n2 s2]. rewrite !rank_le_iff.
  destruct (Z.lt_trichotomy s1 s2) as [H|[H|H]]; [right; left; lia| |left; left; lia].
  destruct (String.leb_total n1 n2) as [Hn|Hn]; [left|right]; right; now split.
Qed.

Local Instance rank_le_trans : Transitive rank_le.
Proof.
  intros [n1 s1] [n2 s2] [n3 s3]. rewrite !rank_le_iff.
  intros [H12|[H12 L12]] [H23|[H23 L23]]; try (left; lia).
  right. split; [lia|]. now apply (string_leb_trans n1 n2 n3).
Qed.

Local Instance rank_le_antisym : AntiSymm (=) rank_le.
Proof.
  intros [n1 s1] [n2 s2]. rewrite !rank_le_iff.
  intros [H12|[H12 L12]] [H21|[H21 L21]]; try lia.
  f_equal; [now apply String.leb_antisym | exact H12].
Qed.

Lemma StronglySorted_weaken {T} (R1 R2 : T -> T -> Prop) (l : list T) :
  (forall x y, R1 x y -> R2 x y) -> StronglySorted R1 l -> StronglySorted R2 l.
Proof.
  intros Himp. induction 1 as [|x l Hl IH Hhd]; constructor; [exact IH|].
  eapply Forall_impl; [exact Hhd|]. intros y. apply Himp.
Qed.

Lemma sorted_scores_perm quiz : sorted_scores quiz ≡ₚ map_to_list (scores quiz).
Proof. apply merge_sort_Permutation. Qed.

Lemma sorted_scores_elem quiz name s :
  (name, s) ∈ sorted_scores quiz <-> scores quiz !! name = Some s.
Proof. now rewrite sorted_scores_perm, elem_of_map_to_list. Qed.

(** The example of the specification. *)
Example sorted_scores_ana_bea_caleb :
  sorted_scores
    (set_scores (<["Caleb" := 1]> (<["Ana" := 3]> (<["Bea" := 3]> ∅))) Quiz_new)
  = [("Ana", 3); ("Bea", 3); ("Caleb", 1)]%string.
Proof. vm_compute. reflexivity. Qed.

(** The sorted expression of line 217 on any score dictionary. It lists
    exactly the entries of the score
    dictionary, each name once, ordered by score descending and, among
    equal scores, by name ascending; that order leaves no freedom, the
    output is the only arrangement of the entries that respects it. It is
    defined for every state: with no scores it is the empty sequence (the
    page then shows a caption instead of an empty table) and with all
    scores zero it is the names in ascending order. *)
Theorem sorted_scores_by_score_then_name (quiz : Quiz) :
  let board := sorted_scores quiz in
  (forall name s, (name, s) ∈ board <-> scores quiz !! name = Some s) /\
  NoDup (map fst board) /\
  length board = size (scores quiz) /\
  StronglySorted
    (fun x y => y.2 < x.2 \/ (x.2 = y.2 /\ String.leb x.1 y.1 = true)) board /\
  (forall board',
     board' ≡ₚ map_to_list (scores quiz) -> Sorted rank_le board' -> board' = board) /\
  (scores quiz = ∅ ->
     board = [] /\ ranking quiz = ranking_caption "Sin respuestas correctas aun") /\
  (scores quiz <> ∅ ->
     ranking quiz = ranking_table (map fst board) (map snd board)) /\
  ((forall name s, scores quiz !! name = Some s -> s = 0) ->
     StronglySorted (fun a b => String.leb a b = true) (map fst board)).
Proof.
  simpl.
  assert (Hsorted : StronglySorted rank_le (sorted_scores quiz)).
  { apply StronglySorted_merge_sort; apply _. }
  split; [apply sorted_scores_elem|].
  split.
  { change (map fst (sorted_scores quiz)) with ((sorted_scores quiz).*1).
    rewrite sorted_scores_perm. apply NoDup_fst_map_to_list. }
  split.
  { rewrite sorted_scores_perm. apply length_map_to_list. }
  split.
  { eapply StronglySorted_weaken; [|exact Hsorted].
    intros [n1 s1] [n2 s2] Hle. now apply rank_le_iff in Hle. }
  split.
  { intros board' Hperm Hs. apply (Sorted_unique rank_le).
    - exact Hs.
    - apply Sorted_merge_sort. apply _.
    - now rewrite Hperm, sorted_scores_perm. }
  split.
  { intros Hempty. split.
    - unfold sorted_scores. rewrite Hempty, map_to_list_empty. reflexivity.
    - unfold ranking. now destruct (decide (scores quiz = ∅)). }
  split.
  { intros Hne. unfold ranking. now destruct (decide (scores quiz = ∅)). }
  intros Hzero.
  assert (Hall : Forall (fun x => x.2 = 0) (sorted_scores quiz)).
  { apply Forall_forall. intros [n s] Hin. apply sorted_scores_elem in Hin.
    simpl. now apply (Hzero n). }
  induction Hsorted as [|[n s] l Hl IH Hhd]; simpl; constructor.
  - apply IH. now inversion Hall.
  - apply Forall_forall. intros n' Hn'.
    apply list_elem_of_fmap in Hn' as ([n2 s2] & -> & Hin).
    rewrite Forall_forall in Hhd. specialize (Hhd _ Hin).
    apply rank_le_iff in Hhd as [Hlt|[_ Hle]]; [|exact Hle].
    inversion Hall as [|? ? Hs Hrest]; subst. simpl in Hs.
    rewrite Forall_forall in Hrest. specialize (Hrest _ Hin). simpl in Hrest. lia.
Qed.

Lemma sorted_scores_by_score_then_name_witness :
  scores Quiz_new = ∅ /\ scores quiz_answered <> ∅ /\
  sorted_scores Quiz_new = [] /\
  ranking quiz_answered
  = ranking_table (map fst (sorted_scores quiz_answered))
                  (map snd (sorted_scores quiz_answered)).
Proof.
  assert (Hempty : scores Quiz_new = ∅) by reflexivity.
  assert (Hne : scores quiz_answered <> ∅).
  { intros Heq. apply (f_equal (fun m => m !! "Ana"%string)) in Heq.
    vm_compute in Heq. discriminate. }
  split; [exact Hempty|]. split; [exact Hne|].
  destruct (sorted_scores_by_score_then_name Quiz_new)
    as (_ & _ & _ & _ & _ & Hnil & _).
  destruct (sorted_scores_by_score_then_name quiz_answered)
    as (_ & _ & _ & _ & _ & _ & Htable & _).
  split; [exact (proj1 (Hnil Hempty)) | exact (Htable Hne)].
Defined.

(** ** CreateSession *)

Lemma pin_of_four_digits (d : Z) : in_range d -> four_digits (pin_of d) = true.
Proof.
  intros Hd.
  assert (Hall : forallb (fun d => four_digits (pin_of d)) (seqZ 1000 9000) = true).
  { vm_compute. reflexivity. }
  rewrite forallb_forall in Hall. apply Hall.
  apply list_elem_of_In, elem_of_seqZ. unfold in_range in Hd. lia.
Qed.

Lemma new_pin_returns_first_free (draws : list Z) (quizzes : gmap string Quiz)
    (pin : string) (quizzes' : gmap string Quiz) :
  new_pin draws quizzes = Some (pin, quizzes') ->
  exists d, d ∈ draws /\ pin = pin_of d /\
            quizzes !! pin = None /\ quizzes' = <[pin := Quiz_new]> quizzes.
Proof.
  induction draws as [|d draws IH]; simpl; [discriminate|].
  destruct (quizzes !! pin_of d) eqn:Hd.
  - intros Hrec. destruct (IH Hrec) as (d' & Hin & Hrest).
    exists d'. split; [now apply list_elem_of_further | exact Hrest].
  - intros [= <- <-]. exists d. split; [apply list_elem_of_here|]. now repeat split.
Qed.

Lemma new_pin_returns_iff (draws : list Z) (quizzes : gmap string Quiz) :
  is_Some (new_pin draws quizzes) <-> exists d, d ∈ draws /\ quizzes !! pin_of d = None.
Proof.
  induction draws as [|d draws IH]; simpl.
  - split; [intros [? ?]; discriminate | intros (d & Hin & _); inversion Hin].
  - destruct (quizzes !! pin_of d) eqn:Hd.
    + rewrite IH. split; intros (d' & Hin & Hfree); exists d'.
      * split; [now apply list_elem_of_further | exact Hfree].
      * split; [|exact Hfree].
        apply elem_of_cons in Hin as [->|Hin]; [congruence | exact Hin].
    + split; [|intros _; eexists; reflexivity].
      intros _. exists d. split; [apply list_elem_of_here | exact Hd].
Qed.

Lemma listed_codes_taken (l : list Z) (d : Z) :
  d ∈ l ->
  is_Some ((list_to_map ((fun d => (pin_of d, Quiz_new)) <$> l) : gmap string Quiz)
             !! pin_of d).
Proof.
  intros Hin. apply not_eq_None_Some. intros Hlook.
  apply not_elem_of_list_to_map in Hlook. apply Hlook.
  rewrite <- list_fmap_compose.
  now apply (list_elem_of_fmap_2' _ _ d).
Qed.

Lemma full_registry_taken (d : Z) : in_range d -> is_Some (full_registry !! pin_of d).
Proof.
  intros Hd. apply (listed_codes_taken (seqZ 1000 9000) d).
  apply elem_of_seqZ. unfold in_range in Hd. lia.
Qed.

(** C8, as stated, fails: with all 9000 codes in use [new_pin] does not
    fail, it never returns, whatever the random draws are. *)
Lemma new_pin_loops_on_full_registry :
  (forall d, in_range d -> is_Some (full_registry !! pin_of d)) /\
  (forall draws, Forall in_range draws -> new_pin draws full_registry = None) /\
  new_pin [1000; 4242; 9999] full_registry = None.
Proof.
  assert (Hloop : forall draws, Forall in_range draws ->
                                new_pin draws full_registry = None).
  { intros draws Hall.
    destruct (new_pin draws full_registry) as [res|] eqn:Hres; [|reflexivity].
    exfalso.
    destruct (proj1 (new_pin_returns_iff draws full_registry)) as (d & Hin & Hfree).
    { rewrite Hres. now eexists. }
    rewrite Forall_forall in Hall.
    destruct (full_registry_taken d (Hall d Hin)) as [q Hq]. congruence. }
  split; [exact full_registry_taken|]. split; [exact Hloop|].
  apply Hloop. repeat constructor; unfold in_range; lia.
Qed.

(** C8, amended. [new_pin] returns as soon as a draw gives a code that is
    not in use: the result is that code, four decimal digits, absent from
    the registry before the call, and the registry afterwards holds a new
    empty quiz under it and is otherwise unchanged. It returns exactly when
    some draw is free; it has no failure case, and while every draw hits a
    code in use, in particular when all codes are taken, it keeps looping. *)
Theorem new_pin_returns_unused_code_when_a_draw_is_free
    (draws : list Z) (quizzes : gmap string Quiz) (Hrange : Forall in_range draws) :
  (is_Some (new_pin draws quizzes) <->
     exists d, d ∈ draws /\ quizzes !! pin_of d = None) /\
  (forall pin quizzes',
     new_pin draws quizzes = Some (pin, quizzes') ->
     four_digits pin = true /\
     quizzes !! pin = None /\
     quizzes' = <[pin := Quiz_new]> quizzes /\
     quizzes' !! pin = Some Quiz_new /\
     (forall other, other <> pin -> quizzes' !! other = quizzes !! other)) /\
  ((forall d, in_range d -> is_Some (quizzes !! pin_of d)) ->
     new_pin draws quizzes = None).
Proof.
  split; [apply new_pin_returns_iff|]. split.
  - intros pin quizzes' Hres.
    destruct (new_pin_returns_first_free _ _ _ _ Hres) as (d & Hin & -> & Hfree & ->).
    rewrite Forall_forall in Hrange.
    split; [apply pin_of_four_digits, Hrange, Hin|].
    split; [exact Hfree|]. split; [reflexivity|].
    split; [apply lookup_insert_eq|].
    intros other Hne. now apply lookup_insert_ne.
  - intros Hfull.
    destruct (new_pin draws quizzes) as [res|] eqn:Hres; [|reflexivity].
    exfalso.
    destruct (proj1 (new_pin_returns_iff draws quizzes)) as (d & Hin & Hfree).
    { rewrite Hres. now eexists. }
    rewrite Forall_forall in Hrange.
    destruct (Hfull d (Hrange d Hin)) as [q Hq]. congruence.
Qed.

Lemma new_pin_returns_unused_code_when_a_draw_is_free_witness :
  Forall in_range [1234; 5678] /\
  exists pin quizzes',
    new_pin [1234; 5678] (<["1234" := Quiz_new]> ∅) = Some (pin, quizzes') /\
    four_digits pin = true /\
    quizzes' !! pin = Some Quiz_new.
Proof.
  assert (Hrange : Forall in_range [1234; 5678]).
  { repeat constructor; unfold in_range; lia. }
  split; [exact Hrange|].
  destruct (new_pin_returns_unused_code_when_a_draw_is_free
              [1234; 5678] (<["1234" := Quiz_new]> ∅) Hrange) as (Hiff & Hres & _).
  destruct (proj2 Hiff) as [[pin quizzes'] Hnew].
  { exists 5678. split; [|reflexivity].
    apply list_elem_of_further, list_elem_of_here. }
  exists pin, quizzes'. split; [exact Hnew|].
  destruct (Hres pin quizzes' Hnew) as (Hfour & _ & _ & Hlook & _).
  split; [exact Hfour | exact Hlook].
Defined.

(** ** The answer letter and the scenario of the specification *)

(** The letter cut out of a radio entry is the letter of the entry, so
    [correct_flag] compares the chosen letter with [Question.correct]. *)
Lemma split_head_radio_option (qrow : Question) (l : Letter) :
  split_head (radio_option qrow l) = letter_str l.
Proof. destruct l; reflexivity. Qed.

Lemma submit_answer_marks_correct name l quiz qrow :
  started quiz = true ->
  current_row quiz = Some qrow ->
  answered name quiz = false ->
  submit_answer name (Some l) quiz
  = (save_answer name (letter_str l) (String.eqb (letter_str l) (correct qrow)) quiz,
     st_success "Respuesta enviada").
Proof.
  intros Hst Hrow Hans. unfold submit_answer.
  now rewrite Hst, Hrow, Hans, split_head_radio_option.
Qed.

(** One question, one participant, one correct answer: the score is 1 and
    the tally of question 1 is A:0, B:1, C:0, D:0. *)
Example scenario_one_correct_answer :
  get0 "Ana" (scores quiz_answered) = 1 /\
  tally 1 quiz_answered
  = <["A" := 0]> (<["B" := 1]> (<["C" := 0]> (<["D" := 0]> ∅))) /\
  sorted_scores quiz_answered = [("Ana"%string, 1)].
Proof. repeat split; vm_compute; reflexivity. Qed.

(** ** One action, one effect *)

Lemma step_effect (quiz : Quiz) (c : Command) : Effect quiz (step quiz c).
Proof.
  destruct c; simpl.
  - apply eff_configure.
  - unfold add_question.
    destruct (forallb truthy _) eqn:Hok; simpl; [now apply eff_add | apply eff_none].
  - apply eff_clear.
  - unfold click. simpl.
    destruct (started quiz) eqn:Hst; simpl; [apply eff_none|].
    destruct (match questions quiz with [] => true | _ => false end) eqn:Hq;
      simpl; [apply eff_none|].
    destruct (start_quiz now quiz) as [quiz'|] eqn:Hs; simpl;
      [now apply (eff_start quiz now) | apply eff_none].
  - unfold click. simpl.
    destruct (started quiz) eqn:Hst; simpl; [|apply eff_none].
    destruct (len (questions quiz) <=? current_q quiz); simpl; [apply eff_none|].
    destruct (next_q now quiz) as [quiz'|] eqn:Hs; simpl;
      [now apply (eff_next quiz now) | apply eff_none].
  - unfold click. simpl.
    destruct (started quiz) eqn:Hst; simpl; [|apply eff_none].
    destruct (current_q quiz <=? 1); simpl; [apply eff_none|].
    destruct (prev_q now quiz) as [quiz'|] eqn:Hs; simpl;
      [now apply (eff_prev quiz now) | apply eff_none].
  - unfold click. simpl.
    destruct (started quiz) eqn:Hst; simpl; [now apply eff_reveal | apply eff_none].
  - unfold click. simpl.
    destruct (started quiz) eqn:Hst; simpl; [now apply eff_stop | apply eff_none].
  - unfold join. destruct (truthy name) eqn:Hn; simpl; [|apply eff_none].
    destruct (joined name quiz) eqn:Hj; simpl; [apply eff_none | now apply eff_join].
  - destruct (joined name quiz) eqn:Hj; [|apply eff_none].
    unfold submit_answer.
    destruct (started quiz) eqn:Hst; simpl; [|apply eff_none].
    destruct (current_row quiz) as [qrow|] eqn:Hrow; simpl; [|apply eff_none].
    destruct (answered name quiz) eqn:Hans; simpl; [apply eff_none|].
    destruct choice as [l|]; simpl; [|apply eff_none].
    rewrite split_head_radio_option. now apply eff_answer.
Qed.

(** Induction over the sessions the pages can produce. *)
Lemma reachable_ind (P : Quiz -> Prop) :
  P Quiz_new ->
  (forall quiz quiz', reachable quiz -> P quiz -> Effect quiz quiz' -> P quiz') ->
  forall quiz, reachable quiz -> P quiz.
Proof.
  intros Hnew Hstep quiz [cmds ->].
  induction cmds as [|c cmds IH] using rev_ind; [exact Hnew|].
  unfold run, run_from in *. rewrite fold_left_app. simpl.
  eapply Hstep; [now exists cmds | exact IH | apply step_effect].
Qed.

Lemma start_quiz_Some now quiz quiz' :
  start_quiz now quiz = Some quiz' ->
  questions quiz <> [] /\
  quiz' = set_responses (<[1 := []]> (responses quiz))
            (set_started_at now
               (set_reveal false (set_current_q 1 (set_started true quiz)))).
Proof.
  unfold start_quiz. destruct (questions quiz); [discriminate|].
  intros [= <-]. split; [discriminate | reflexivity].
Qed.

Lemma next_q_Some now quiz quiz' :
  next_q now quiz = Some quiz' ->
  current_q quiz < len (questions quiz) /\
  quiz' = set_responses (setdefault (current_q quiz + 1) [] (responses quiz))
            (set_started_at now
               (set_reveal false (set_current_q (current_q quiz + 1) quiz))).
Proof.
  unfold next_q. destruct (current_q quiz <? len (questions quiz)) eqn:Hlt;
    [|discriminate].
  intros [= <-]. apply Z.ltb_lt in Hlt. split; [exact Hlt|].
  now destruct quiz.
Qed.

Lemma prev_q_Some now quiz quiz' :
  prev_q now quiz = Some quiz' ->
  1 < current_q quiz /\
  quiz' = set_started_at now
            (set_reveal false (set_current_q (current_q quiz - 1) quiz)).
Proof.
  unfold prev_q. destruct (1 <? current_q quiz) eqn:Hlt; [|discriminate].
  intros [= <-]. apply Z.ltb_lt in Hlt. now split.
Qed.

(** Case analysis on an effect, with the callbacks replaced by what they
    return. *)
Ltac effect_cases Heff :=
  destruct Heff as
    [ | t s | qtext a b c d l Hok | | now quiz' Hst Hs | now quiz' Hst Hs
      | now quiz' Hst Hs | Hst | Hst | name Hn Hj | name l qrow Hj Hst Hrow Hans ];
  [ | | | | apply start_quiz_Some in Hs as [Hqs ->]
    | apply next_q_Some in Hs as [Hlt ->]
    | apply prev_q_Some in Hs as [Hlt ->] | | | | ].

(** ** A quiz that is not started is at rest *)

Lemma idle_at_rest_reachable quiz : reachable quiz -> idle_at_rest quiz.
Proof.
  revert quiz. apply reachable_ind.
  - intros _. now repeat split.
  - intros quiz quiz' _ IH Heff. unfold idle_at_rest in *.
    effect_cases Heff; destruct quiz; simpl in *;
      try exact IH; try discriminate; try congruence;
      intros _; now repeat split.
Qed.

(** ** The answer lists belong to questions of the quiz *)

Lemma answers_in_range_reachable quiz : reachable quiz -> answers_in_range quiz.
Proof.
  revert quiz. apply reachable_ind.
  - intros k [x Hx]. simpl in Hx. now rewrite lookup_empty in Hx.
  - intros quiz quiz' Hr IH Heff. apply reachable_wf in Hr as (_ & _ & Hlive).
    unfold answers_in_range in *.
    effect_cases Heff; destruct quiz as [t0 tp qs ps rs sc st cq rv sa];
      simpl in *; try exact IH.
    + (* a question is added *)
      intros k Hk. specialize (IH k Hk). rewrite len_app.
      pose proof (len_nonneg [mkQuestion (next_qid qs) qtext a b c d (letter_str l)]).
      lia.
    + (* the quiz is cleared *)
      intros k [x Hx]. now rewrite lookup_empty in Hx.
    + (* start *)
      intros k Hk. destruct (decide (k = 1)) as [->|Hne].
      * destruct qs; [contradiction|]. unfold len. simpl. lia.
      * rewrite lookup_insert_ne in Hk by congruence. now apply IH.
    + (* next *)
      intros k Hk. unfold setdefault in Hk.
      destruct (rs !! (cq + 1)) eqn:Hnew; [now apply IH|].
      destruct (decide (k = cq + 1)) as [->|Hne].
      * specialize (Hlive Hst). lia.
      * rewrite lookup_insert_ne in Hk by congruence. now apply IH.
    + (* an answer is saved *)
      intros k Hk. specialize (Hlive Hst).
      destruct (decide (k = cq)) as [->|Hne]; [exact Hlive|].
      rewrite lookup_insert_ne in Hk by congruence.
      unfold setdefault in Hk. destruct (rs !! cq) eqn:Hcur; [now apply IH|].
      rewrite lookup_insert_ne in Hk by congruence. now apply IH.
Qed.

(** ** The roster *)

Lemma joined_iff name quiz : joined name quiz = true <-> name ∈ participants quiz.
Proof.
  unfold joined. rewrite existsb_exists, list_elem_of_In. split.
  - intros (x & Hin & Heq). apply String.eqb_eq in Heq. now subst x.
  - intros Hin. exists name. split; [exact Hin | apply String.eqb_refl].
Qed.

Lemma joined_false_iff name quiz : joined name quiz = false <-> name ∉ participants quiz.
Proof. rewrite <- joined_iff. destruct (joined name quiz); split; congruence. Qed.

Lemma roster_ok_reachable quiz : reachable quiz -> roster_ok quiz.
Proof.
  revert quiz. apply reachable_ind.
  - split; constructor.
  - intros quiz quiz' _ IH Heff. unfold roster_ok in *.
    effect_cases Heff; try (destruct quiz; exact IH).
    apply joined_false_iff in Hj. destruct IH as [Hnd Hne].
    destruct quiz as [t0 tp qs ps rs sc st cq rv sa]; simpl in *. split.
    + apply NoDup_app. split; [exact Hnd|]. split; [|apply NoDup_singleton].
      intros x Hx Hx'. apply list_elem_of_singleton in Hx'. now subst x.
    + apply Forall_app. split; [exact Hne|]. constructor; [|constructor].
      intros ->. discriminate.
Qed.

Lemma names_joined_reachable quiz : reachable quiz -> names_joined quiz.
Proof.
  revert quiz. apply reachable_ind.
  - split.
    + intros k n Hmem. unfold respondents, responses_get in Hmem. simpl in Hmem.
      rewrite lookup_empty in Hmem. inversion Hmem.
    + intros n [x Hx]. simpl in Hx. now rewrite lookup_empty in Hx.
  - intros quiz quiz' _ [IHr IHs] Heff. unfold names_joined in *.
    effect_cases Heff; try (destruct quiz; split; assumption).
    + (* clear *)
      split.
      * intros k n Hmem. unfold respondents, responses_get in Hmem. simpl in Hmem.
        rewrite lookup_empty in Hmem. inversion Hmem.
      * intros n [x Hx]. simpl in Hx. now rewrite lookup_empty in Hx.
    + (* start *)
      destruct quiz as [t0 tp qs ps rs sc st cq rv sa]. simpl in *.
      split; [|exact IHs]. intros k n Hmem.
      unfold respondents, responses_get in Hmem. simpl in Hmem.
      destruct (decide (k = 1)) as [->|Hne].
      * rewrite lookup_insert_eq in Hmem. inversion Hmem.
      * rewrite lookup_insert_ne in Hmem by congruence. now apply (IHr k).
    + (* next *)
      destruct quiz as [t0 tp qs ps rs sc st cq rv sa]. simpl in *.
      split; [|exact IHs]. intros k n Hmem.
      unfold respondents in Hmem. simpl in Hmem.
      rewrite responses_get_setdefault in Hmem. now apply (IHr k).
    + (* join *)
      destruct quiz as [t0 tp qs ps rs sc st cq rv sa]. simpl in *. split.
      * intros k n Hmem. apply elem_of_app. left. now apply (IHr k).
      * intros n Hmem. apply elem_of_app. unfold setdefault in Hmem.
        destruct (sc !! name) eqn:Hsc; [left; now apply IHs|].
        destruct (decide (name = n)) as [->|Hne];
          [right; apply list_elem_of_here|].
        rewrite lookup_insert_ne in Hmem by exact Hne. left. now apply IHs.
    + (* answer *)
      apply joined_iff in Hj. split.
      * intros k n Hmem. unfold respondents in Hmem.
        rewrite responses_get_save_answer in Hmem.
        assert (Hp : participants
                       (save_answer name (letter_str l)
                          (String.eqb (letter_str l) (correct qrow)) quiz)
                     = participants quiz) by now destruct quiz.
        rewrite Hp. destruct (decide (k = current_q quiz)) as [->|Hne];
          [|now apply (IHr k)].
        rewrite map_app in Hmem. apply elem_of_app in Hmem as [Hmem|Hmem];
          [now apply (IHr (current_q quiz))|].
        simpl in Hmem. apply list_elem_of_singleton in Hmem. now subst n.
      * destruct quiz as [t0 tp qs ps rs sc st cq rv sa]. simpl in *.
        intros n Hmem. destruct (String.eqb (letter_str l) (correct qrow));
          [|now apply IHs].
        destruct (decide (name = n)) as [->|Hne]; [exact Hj|].
        rewrite lookup_insert_ne in Hmem by exact Hne. now apply IHs.
Qed.

(** ** Stored responses fit their question *)

Lemma current_row_Some quiz qrow :
  current_row quiz = Some qrow -> qrow ∈ questions quiz /\ qid qrow = current_q quiz.
Proof.
  unfold current_row. intros Hfind. apply find_some in Hfind as [Hin Heq].
  split; [now apply list_elem_of_In | now apply Z.eqb_eq].
Qed.

Lemma letter_str_letters l : letter_str l ∈ letters.
Proof. destruct l; unfold letters; set_solver. Qed.

Lemma responses_fit_reachable quiz : reachable quiz -> responses_fit quiz.
Proof.
  revert quiz. apply reachable_ind.
  - intros k r Hr. unfold responses_get in Hr. simpl in Hr.
    rewrite lookup_empty in Hr. inversion Hr.
  - intros quiz quiz' _ IH Heff. unfold responses_fit in *.
    effect_cases Heff; try (destruct quiz; exact IH).
    + (* add *)
      destruct quiz as [t0 tp qs ps rs sc st cq rv sa]. simpl in *.
      intros k r Hr. destruct (IH k r Hr) as (q & Hq & Hrest).
      exists q. split; [apply elem_of_app; now left | exact Hrest].
    + (* clear *)
      intros k r Hr. unfold responses_get in Hr. simpl in Hr.
      rewrite lookup_empty in Hr. inversion Hr.
    + (* start *)
      destruct quiz as [t0 tp qs ps rs sc st cq rv sa]. simpl in *.
      intros k r Hr. unfold responses_get in Hr.
      destruct (decide (k = 1)) as [->|Hne].
      * rewrite lookup_insert_eq in Hr. inversion Hr.
      * rewrite lookup_insert_ne in Hr by congruence. now apply IH.
    + (* next *)
      destruct quiz as [t0 tp qs ps rs sc st cq rv sa]. simpl in *.
      intros k r Hr. rewrite responses_get_setdefault in Hr. now apply IH.
    + (* answer *)
      intros k r Hr. rewrite responses_get_save_answer in Hr.
      assert (Hq : questions
                     (save_answer name (letter_str l)
                        (String.eqb (letter_str l) (correct qrow)) quiz)
                   = questions quiz) by now destruct quiz.
      rewrite Hq. destruct (decide (k = current_q quiz)) as [->|Hne];
        [|now apply IH].
      apply elem_of_app in Hr as [Hr|Hr]; [now apply IH|].
      apply list_elem_of_singleton in Hr. subst r.
      apply current_row_Some in Hrow as [Hin Hid].
      exists qrow. split; [exact Hin|]. split; [exact Hid|].
      split; [apply letter_str_letters | reflexivity].
Qed.

(** ** What saving an answer adds *)

Lemma correct_count_all_responses name quiz :
  correct_count name (all_responses quiz) = total_correct name (responses quiz).
Proof. reflexivity. Qed.

Lemma total_correct_save_answer name who letter flag quiz :
  total_correct name (responses (save_answer who letter flag quiz))
  = total_correct name (responses quiz)
    + (if decide (who = name /\ flag = true) then 1 else 0).
Proof.
  destruct quiz as [t tp qs ps rs sc st cq rv sa]. unfold save_answer. simpl.
  rewrite total_correct_insert, total_correct_setdefault, correct_count_app,
          correct_count_single. simpl. lia.
Qed.

Lemma get0_save_answer name who letter flag quiz :
  get0 name (scores (save_answer who letter flag quiz))
  = get0 name (scores quiz)
    + (if decide (who = name /\ flag = true) then 1 else 0).
Proof.
  destruct quiz as [t tp qs ps rs sc st cq rv sa]. unfold save_answer. simpl.
  destruct flag.
  - destruct (decide (who = name)) as [->|Hne].
    + unfold get0 at 1. rewrite lookup_insert_eq. simpl.
      destruct (decide _) as [_|Hno]; [reflexivity|]. exfalso. now apply Hno.
    + unfold get0 at 1. rewrite lookup_insert_ne by exact Hne.
      fold (get0 name sc).
      destruct (decide _) as [[Heq _]|_]; [contradiction|lia].
  - destruct (decide _) as [[_ Hf]|_]; [discriminate|lia].
Qed.

Lemma get0_setdefault_zero name who (sc : gmap string Z) :
  get0 name (setdefault who 0 sc) = get0 name sc.
Proof.
  unfold setdefault, get0. destruct (sc !! who) eqn:Hw; [reflexivity|].
  destruct (decide (who = name)) as [->|Hne].
  - now rewrite lookup_insert_eq, Hw.
  - now rewrite lookup_insert_ne.
Qed.

(** ** Scores never fall below the responses marked correct *)

Lemma score_covers_reachable quiz : reachable quiz -> score_covers quiz.
Proof.
  revert quiz. apply reachable_ind.
  - intros name. rewrite correct_count_all_responses. simpl.
    rewrite total_correct_empty. unfold get0. rewrite lookup_empty. simpl. lia.
  - intros quiz quiz' _ IH Heff who. specialize (IH who).
    pose proof (correct_count_nonneg who (all_responses quiz')) as Hnn.
    split; [exact Hnn|]. clear Hnn.
    rewrite correct_count_all_responses in *.
    effect_cases Heff; try (destruct quiz; simpl in *; lia).
    + (* clear *)
      simpl. rewrite total_correct_empty. unfold get0. rewrite lookup_empty.
      simpl. lia.
    + (* start *)
      destruct quiz as [t0 tp qs ps rs sc st cq rv sa]. simpl in *.
      rewrite total_correct_insert.
      pose proof (correct_count_nonneg who (responses_get 1 rs)).
      change (correct_count who []) with 0. lia.
    + (* next *)
      destruct quiz as [t0 tp qs ps rs sc st cq rv sa]. simpl in *.
      rewrite total_correct_setdefault. lia.
    + (* join *)
      destruct quiz as [t0 tp qs ps rs sc st cq rv sa]. simpl in *.
      rewrite get0_setdefault_zero. lia.
    + (* answer *)
      rewrite total_correct_save_answer, get0_save_answer. lia.
Qed.

(** ** Properties of the sessions the pages can produce *)

Lemma question_by_id quiz (k : Z) :
  ids_sequential quiz -> 1 <= k <= len (questions quiz) ->
  exists q, questions quiz !! Z.to_nat (k - 1) = Some q /\ qid q = k.
Proof.
  intros Hids Hk.
  destruct (lookup_lt_is_Some_2 (questions quiz) (Z.to_nat (k - 1))) as [q Hq].
  { unfold len in Hk. lia. }
  exists q. split; [exact Hq|].
  rewrite (lookup_qid_sequential _ _ _ Hids Hq). lia.
Qed.

Lemma qid_unique quiz q1 q2 :
  ids_sequential quiz ->
  q1 ∈ questions quiz -> q2 ∈ questions quiz -> qid q1 = qid q2 -> q1 = q2.
Proof.
  intros Hids H1 H2 Heq.
  apply list_elem_of_lookup in H1 as [i Hi]. apply list_elem_of_lookup in H2 as [j Hj].
  pose proof (lookup_qid_sequential _ _ _ Hids Hi).
  pose proof (lookup_qid_sequential _ _ _ Hids Hj).
  assert (i = j) by lia. subst j. congruence.
Qed.

(** X1. Whatever the teacher and the students do, in any order, the
    question ids of a session are [1, 2, ..., n] in list order, so they are
    pairwise distinct. *)
Theorem question_ids_stay_sequential (quiz : Quiz) (Hr : reachable quiz) :
  map qid (questions quiz) = seqZ 1 (len (questions quiz)) /\
  NoDup (map qid (questions quiz)) /\
  (forall (i : nat) q, questions quiz !! i = Some q -> qid q = Z.of_nat i + 1).
Proof.
  apply reachable_wf in Hr as (Hids & _ & _).
  split; [exact Hids|]. split.
  - rewrite Hids. apply NoDup_seqZ.
  - intros i q Hq. rewrite (lookup_qid_sequential _ _ _ Hids Hq). lia.
Qed.

Lemma question_ids_stay_sequential_witness :
  reachable quiz_answered /\ map qid (questions quiz_answered) = [1].
Proof.
  split; [exact reachable_quiz_answered|].
  destruct (question_ids_stay_sequential quiz_answered reachable_quiz_answered)
    as (Hids & _).
  rewrite Hids. reflexivity.
Defined.

(** X2. While a session is started its current question exists: the
    [next(...)] of the live views (teacher line 189, student line 307)
    finds the one question whose id is [current_q], and [current_q] lies
    between 1 and the number of questions. The views never raise
    [StopIteration]. *)
Theorem live_question_always_exists
    (quiz : Quiz) (Hr : reachable quiz) (Hst : started quiz = true) :
  1 <= current_q quiz <= len (questions quiz) /\
  exists qrow,
    current_row quiz = Some qrow /\
    qrow ∈ questions quiz /\
    qid qrow = current_q quiz /\
    questions quiz !! Z.to_nat (current_q quiz - 1) = Some qrow.
Proof.
  pose proof (reachable_wf _ Hr) as Hwf.
  destruct Hwf as (Hids & Hidle & Hlive). specialize (Hlive Hst).
  split; [exact Hlive|].
  destruct (current_row_live quiz (conj Hids (conj Hidle (fun _ => Hlive))) Hst)
    as [qrow Hrow].
  exists qrow. split; [exact Hrow|].
  apply current_row_Some in Hrow as [Hin Hid].
  split; [exact Hin|]. split; [exact Hid|].
  destruct (question_by_id quiz (current_q quiz) Hids Hlive) as (q & Hq & Hqid).
  rewrite Hq. f_equal. apply (qid_unique quiz); try assumption.
  - now apply list_elem_of_lookup_2 in Hq.
  - congruence.
Qed.

Lemma live_question_always_exists_witness :
  reachable quiz_answered /\ started quiz_answered = true /\
  exists qrow, current_row quiz_answered = Some qrow /\ qid qrow = 1.
Proof.
  split; [exact reachable_quiz_answered|]. split; [reflexivity|].
  destruct (live_question_always_exists quiz_answered reachable_quiz_answered eq_refl)
    as (_ & qrow & Hrow & _ & Hid & _).
  exists qrow. split; [exact Hrow | exact Hid].
Defined.

(** X3. A session that is not started is at rest: [current_q] is 0, the
    answer is not revealed and [started_at] is 0; and the teacher's
    "Anterior" callback is rejected on it (its own test [current_q > 1]
    fails), unlike "Siguiente". *)
Theorem idle_quiz_is_at_rest
    (quiz : Quiz) (Hr : reachable quiz) (Hst : started quiz = false) :
  current_q quiz = 0 /\ reveal quiz = false /\ started_at quiz = 0%Q /\
  (forall now, prev_q now quiz = None) /\
  step quiz StopSession = quiz.
Proof.
  destruct (idle_at_rest_reachable quiz Hr Hst) as (Hcq & Hrv & Hsa).
  split; [exact Hcq|]. split; [exact Hrv|]. split; [exact Hsa|]. split.
  - intros now. unfold prev_q. now rewrite Hcq.
  - simpl. unfold click. simpl. now rewrite Hst.
Qed.

Lemma idle_quiz_is_at_rest_witness :
  reachable quiz_one_question /\ started quiz_one_question = false /\
  current_q quiz_one_question = 0 /\ prev_q 5%Q quiz_one_question = None.
Proof.
  split; [exact reachable_quiz_one_question|]. split; [reflexivity|].
  destruct (idle_quiz_is_at_rest quiz_one_question reachable_quiz_one_question eq_refl)
    as (Hcq & _ & _ & Hprev & _).
  split; [exact Hcq | exact (Hprev 5%Q)].
Defined.

(** X4. Every answer list stored in [responses] is filed under the id of
    a question of the quiz: the dictionary has no entry for an id that is
    not in [questions]. *)
Theorem answer_lists_belong_to_questions
    (quiz : Quiz) (k : Z) (rs : list Response)
    (Hr : reachable quiz) (Hk : responses quiz !! k = Some rs) :
  1 <= k <= len (questions quiz) /\
  exists q, q ∈ questions quiz /\ qid q = k.
Proof.
  pose proof (answers_in_range_reachable quiz Hr k (ex_intro _ rs Hk)) as Hrange.
  split; [exact Hrange|].
  apply reachable_wf in Hr as (Hids & _ & _).
  destruct (question_by_id quiz k Hids Hrange) as (q & Hq & Hqid).
  exists q. split; [now apply list_elem_of_lookup_2 in Hq | exact Hqid].
Qed.

Lemma answer_lists_belong_to_questions_witness :
  reachable quiz_answered /\
  (exists rs, responses quiz_answered !! 1 = Some rs) /\
  exists q, q ∈ questions quiz_answered /\ qid q = 1.
Proof.
  split; [exact reachable_quiz_answered|].
  assert (Hk : responses quiz_answered !! 1
               = Some [mkResponse "Ana" "B" true]) by reflexivity.
  split; [eexists; exact Hk|].
  exact (proj2 (answer_lists_belong_to_questions quiz_answered 1 _
                  reachable_quiz_answered Hk)).
Defined.

(** X5. The roster never holds a name twice and never holds the empty
    name. *)
Theorem roster_has_distinct_nonempty_names (quiz : Quiz) (Hr : reachable quiz) :
  NoDup (participants quiz) /\
  (forall name, name ∈ participants quiz -> name <> EmptyString).
Proof.
  destruct (roster_ok_reachable quiz Hr) as [Hnd Hne].
  split; [exact Hnd|]. intros name Hin. rewrite Forall_forall in Hne. now apply Hne.
Qed.

Lemma roster_has_distinct_nonempty_names_witness :
  reachable quiz_answered /\ NoDup (participants quiz_answered).
Proof.
  split; [exact reachable_quiz_answered|].
  exact (proj1 (roster_has_distinct_nonempty_names quiz_answered
                  reachable_quiz_answered)).
Defined.

(** X6. Only participants answer and score: every name in an answer list
    and every name with an entry in [scores] is in [participants]. *)
Theorem answers_and_scores_come_from_participants
    (quiz : Quiz) (Hr : reachable quiz) :
  (forall k r, r ∈ responses_get k (responses quiz) ->
     r_name r ∈ participants quiz) /\
  (forall name s, scores quiz !! name = Some s -> name ∈ participants quiz) /\
  (forall name s, (name, s) ∈ sorted_scores quiz -> name ∈ participants quiz).
Proof.
  destruct (names_joined_reachable quiz Hr) as [Hresp Hsc].
  split; [|split].
  - intros k r Hin. apply (Hresp k). unfold respondents.
    now apply (list_elem_of_fmap_2 r_name).
  - intros name s Hs. apply Hsc. now exists s.
  - intros name s Hin. apply sorted_scores_elem in Hin. apply Hsc. now exists s.
Qed.

Lemma answers_and_scores_come_from_participants_witness :
  reachable quiz_answered /\ "Ana"%string ∈ participants quiz_answered.
Proof.
  split; [exact reachable_quiz_answered|].
  destruct (answers_and_scores_come_from_participants quiz_answered
              reachable_quiz_answered) as (_ & Hsc & _).
  apply (Hsc "Ana"%string 1). reflexivity.
Defined.

(** X7. Every stored response carries one of the letters A, B, C, D, and
    its [correct] flag is true exactly when that letter is the correct
    letter of the question it is filed under. *)
Theorem stored_responses_fit_their_question
    (quiz : Quiz) (k : Z) (r : Response) (q : Question)
    (Hr : reachable quiz)
    (Hin : r ∈ responses_get k (responses quiz))
    (Hq : q ∈ questions quiz) (Hk : qid q = k) :
  r_answer r ∈ letters /\
  (r_correct r = true <-> r_answer r = correct q).
Proof.
  destruct (responses_fit_reachable quiz Hr k r Hin) as (q0 & Hq0 & Hk0 & Hlet & Hflag).
  apply reachable_wf in Hr as (Hids & _ & _).
  assert (q0 = q) by (apply (qid_unique quiz); congruence). subst q0.
  split; [exact Hlet|]. rewrite Hflag. apply String.eqb_eq.
Qed.

Lemma stored_responses_fit_their_question_witness :
  reachable quiz_answered /\
  mkResponse "Ana" "B" true ∈ responses_get 1 (responses quiz_answered) /\
  (r_correct (mkResponse "Ana" "B" true) = true <->
   r_answer (mkResponse "Ana" "B" true) = "B"%string).
Proof.
  assert (Hin : mkResponse "Ana" "B" true ∈ responses_get 1 (responses quiz_answered)).
  { apply list_elem_of_here. }
  assert (Hq : mkQuestion 1 "2+2?" "3" "4" "5" "6" "B" ∈ questions quiz_answered).
  { apply list_elem_of_here. }
  split; [exact reachable_quiz_answered|]. split; [exact Hin|].
  exact (proj2 (stored_responses_fit_their_question quiz_answered 1 _ _
                  reachable_quiz_answered Hin Hq eq_refl)).
Defined.

Lemma choice_count_letters_sum (rs : list Response) :
  Forall (fun r => r_answer r ∈ letters) rs ->
  choice_count "A" rs + choice_count "B" rs
  + choice_count "C" rs + choice_count "D" rs = len rs.
Proof.
  induction 1 as [|r rs Hr _ IH]; [reflexivity|].
  rewrite !choice_count_cons.
  replace (len (r :: rs)) with (1 + len rs) by (unfold len; simpl length; lia).
  rewrite <- IH. unfold letters in Hr.
  repeat (apply elem_of_cons in Hr as [Hr|Hr]);
    [..|now apply elem_of_nil in Hr];
    rewrite Hr; repeat case_decide; try discriminate; try congruence; lia.
Qed.

(** X8. In the live tally no response is lost or counted twice: the four
    counts shown for a question add up to the number of responses stored
    for it. *)
Theorem tally_counts_every_response (quiz : Quiz) (k : Z) (Hr : reachable quiz) :
  get0 "A" (tally k quiz) + get0 "B" (tally k quiz)
  + get0 "C" (tally k quiz) + get0 "D" (tally k quiz)
  = len (responses_get k (responses quiz)).
Proof.
  unfold get0. rewrite !tally_lookup.
  repeat (destruct (decide (_ ∈ letters)) as [_|Hout];
          [|exfalso; apply Hout; unfold letters; set_solver]).
  simpl. apply choice_count_letters_sum, Forall_forall.
  intros r Hin.
  destruct (responses_fit_reachable quiz Hr k r Hin) as (q & _ & _ & Hlet & _).
  exact Hlet.
Qed.

Lemma tally_counts_every_response_witness :
  reachable quiz_answered /\
  get0 "A" (tally 1 quiz_answered) + get0 "B" (tally 1 quiz_answered)
  + get0 "C" (tally 1 quiz_answered) + get0 "D" (tally 1 quiz_answered) = 1.
Proof.
  split; [exact reachable_quiz_answered|].
  rewrite (tally_counts_every_response quiz_answered 1 reachable_quiz_answered).
  reflexivity.
Defined.

(** X9. A score is never negative and never below the number of the
    participant's stored responses marked correct: points are only added,
    one per response marked correct, and no handler except "Borrar todas"
    takes points away. *)
Theorem score_never_below_correct_responses
    (quiz : Quiz) (name : string) (Hr : reachable quiz) :
  0 <= correct_count name (all_responses quiz) <= get0 name (scores quiz) /\
  (forall s, scores quiz !! name = Some s -> 0 <= s).
Proof.
  pose proof (score_covers_reachable quiz Hr name) as Hcov.
  split; [exact Hcov|].
  intros s Hs. unfold get0 in Hcov. rewrite Hs in Hcov. simpl in Hcov. lia.
Qed.

Lemma score_never_below_correct_responses_witness :
  reachable quiz_restarted /\
  correct_count "Ana" (all_responses quiz_restarted)
  <= get0 "Ana" (scores quiz_restarted).
Proof.
  assert (Hr : reachable quiz_restarted).
  { exists [sample_question; StartSession 100%Q; Join "Ana";
            SubmitAnswer "Ana" (Some LB); StopSession; StartSession 200%Q].
    vm_compute. reflexivity. }
  split; [exact Hr|].
  exact (proj2 (proj1 (score_never_below_correct_responses
                         quiz_restarted "Ana" Hr))).
Defined.

(** ** How the live controls compose *)

(** X10. Going to the next question and back returns to the question the
    teacher was on: the answers of every question, the scores, the
    questions and the roster are as before; only the reveal flag is cleared
    and the countdown restarted. *)
Theorem next_then_prev_returns
    (n1 n2 : Q) (quiz : Quiz) (Hr : reachable quiz)
    (Hst : started quiz = true) (Hlt : current_q quiz < len (questions quiz)) :
  let quiz2 := step (step quiz (NextQuestion n1)) (PrevQuestion n2) in
  current_q quiz2 = current_q quiz /\
  (forall k, responses_get k (responses quiz2) = responses_get k (responses quiz)) /\
  scores quiz2 = scores quiz /\
  questions quiz2 = questions quiz /\
  participants quiz2 = participants quiz /\
  started quiz2 = true /\
  reveal quiz2 = false /\
  started_at quiz2 = n2.
Proof.
  apply reachable_wf in Hr as (_ & _ & Hlive). specialize (Hlive Hst).
  destruct quiz as [t tp qs ps rs sc st cq rv sa]. simpl in *. subst st.
  unfold click. simpl.
  assert (H1 : (len qs <=? cq) = false) by (apply Z.leb_gt; lia).
  assert (H2 : (cq <? len qs) = true) by (apply Z.ltb_lt; lia).
  rewrite H1. simpl. unfold next_q. simpl. rewrite H2. simpl.
  assert (H3 : (cq + 1 <=? 1) = false) by (apply Z.leb_gt; lia).
  assert (H4 : (1 <? cq + 1) = true) by (apply Z.ltb_lt; lia).
  rewrite H3. simpl. unfold prev_q. simpl. rewrite H4. simpl.
  split; [lia|]. split; [intros k; apply responses_get_setdefault|].
  now repeat split.
Qed.

Lemma next_then_prev_returns_witness :
  reachable quiz_two_questions /\ started quiz_two_questions = true /\
  current_q quiz_two_questions < len (questions quiz_two_questions) /\
  current_q (step (step quiz_two_questions (NextQuestion 110%Q)) (PrevQuestion 120%Q))
  = 1.
Proof.
  assert (Hr : reachable quiz_two_questions) by (eexists; reflexivity).
  assert (Hlt : current_q quiz_two_questions < len (questions quiz_two_questions))
    by (vm_compute; reflexivity).
  split; [exact Hr|]. split; [reflexivity|]. split; [exact Hlt|].
  destruct (next_then_prev_returns 110%Q 120%Q quiz_two_questions Hr eq_refl Hlt)
    as (Hcq & _).
  exact Hcq.
Defined.

(** X11. "Revelar / Ocultar" is a toggle: pressing it twice leaves the
    quiz exactly as it was, in every state. *)
Theorem toggle_reveal_twice (quiz : Quiz) :
  step (step quiz ToggleReveal) ToggleReveal = quiz /\
  (started quiz = true ->
     reveal (step quiz ToggleReveal) = negb (reveal quiz)).
Proof.
  destruct quiz as [t tp qs ps rs sc st cq rv sa]. simpl. unfold click. simpl.
  destruct st; simpl; [|split; [reflexivity|discriminate]].
  rewrite negb_involutive. split; [reflexivity|]. intros _. reflexivity.
Qed.

Lemma toggle_reveal_twice_witness :
  started quiz_answered = true /\
  reveal (step quiz_answered ToggleReveal) = true.
Proof.
  split; [reflexivity|].
  exact (proj2 (toggle_reveal_twice quiz_answered) eq_refl).
Defined.

(** X12. "Terminar sesion" keeps what was recorded: questions, roster,
    answers and scores are untouched, so the tally of every question and
    the leaderboard read the same after stopping; and the stopped quiz
    takes no further answer. *)
Theorem stop_keeps_answers_and_scores (quiz : Quiz) :
  let quiz' := step quiz StopSession in
  started quiz' = false /\
  questions quiz' = questions quiz /\
  participants quiz' = participants quiz /\
  responses quiz' = responses quiz /\
  scores quiz' = scores quiz /\
  (forall k, tally k quiz' = tally k quiz) /\
  sorted_scores quiz' = sorted_scores quiz /\
  (forall name choice,
     step quiz' (SubmitAnswer name choice) = quiz' /\
     (submit_answer name choice quiz').1 = quiz').
Proof.
  destruct quiz as [t tp qs ps rs sc st cq rv sa]. simpl. unfold click. simpl.
  destruct st; simpl.
  - repeat split; try reflexivity.
    unfold submit_answer; simpl. now destruct (joined _ _).
  - repeat split; try reflexivity.
    unfold submit_answer; simpl. now destruct (joined _ _).
Qed.

(** ** Joining *)

Lemma join_empty quiz : (join EmptyString quiz).1 = quiz.
Proof. reflexivity. Qed.

Lemma join_joined name quiz : name ∈ participants quiz -> (join name quiz).1 = quiz.
Proof.
  intros Hin. apply joined_iff in Hin. unfold join.
  destruct (negb (truthy name)); [reflexivity|]. now rewrite Hin.
Qed.

Lemma join_new name quiz :
  name <> EmptyString -> name ∉ participants quiz ->
  (join name quiz).1
  = set_scores (setdefault name 0 (scores quiz))
      (set_participants (participants quiz ++ [name]) quiz).
Proof.
  intros Hne Hout. apply truthy_true in Hne. apply joined_false_iff in Hout.
  unfold join. now rewrite Hne, Hout.
Qed.

(** X13. Joining is idempotent and never resets a score: joining again
    under a name already on the roster changes nothing, a first join adds
    the name once, with score 0 only if the name had no score, and leaves
    every other name and score as it was. The empty name is refused. *)
Theorem join_is_idempotent (name : string) (quiz : Quiz) :
  (join name (join name quiz).1).1 = (join name quiz).1 /\
  (name <> EmptyString -> name ∈ participants (join name quiz).1) /\
  (name = EmptyString -> (join name quiz).1 = quiz) /\
  (name ∈ participants quiz -> (join name quiz).1 = quiz) /\
  (forall who, get0 who (scores (join name quiz).1) = get0 who (scores quiz)) /\
  (forall who, who ∈ participants (join name quiz).1 <->
                 who ∈ participants quiz \/ (who = name /\ name <> EmptyString)) /\
  responses (join name quiz).1 = responses quiz /\
  questions (join name quiz).1 = questions quiz.
Proof.
  destruct (decide (name = EmptyString)) as [->|Hne].
  - rewrite !join_empty. repeat split; try reflexivity; tauto.
  - destruct (decide (name ∈ participants quiz)) as [Hin|Hout].
    + rewrite !(join_joined name quiz Hin).
      repeat split; try reflexivity; try tauto.
      all: intros [H|[-> _]]; assumption.
    + rewrite !(join_new name quiz Hne Hout).
      assert (Hin1 : name ∈ participants
                       (set_scores (setdefault name 0 (scores quiz))
                          (set_participants (participants quiz ++ [name]) quiz))).
      { destruct quiz; simpl. apply elem_of_app. right. apply list_elem_of_here. }
      split; [now apply join_joined|]. split; [now intros _|].
      split; [contradiction|]. split; [contradiction|].
      destruct quiz as [t tp qs ps rs sc st cq rv sa]. simpl in *.
      split; [intros who; apply get0_setdefault_zero|].
      split; [|now split].
      intros who. rewrite elem_of_app, list_elem_of_singleton. tauto.
Qed.

Lemma join_is_idempotent_witness :
  "Bea"%string <> EmptyString /\
  "Bea"%string ∈ participants (join "Bea" quiz_answered).1 /\
  get0 "Ana" (scores (join "Bea" quiz_answered).1) = 1.
Proof.
  assert (Hne : "Bea"%string <> EmptyString) by discriminate.
  split; [exact Hne|].
  destruct (join_is_idempotent "Bea" quiz_answered) as (_ & Hin & _ & _ & Hsc & _).
  split; [exact (Hin Hne)|]. rewrite Hsc. reflexivity.
Defined.



(** ** The effect of an accepted answer *)

(** X15. An answer is accepted exactly when the quiz is started, the
    participant has no response for the current question and a radio entry
    is selected. An accepted answer appends one response to the answer list
    of the current question and touches no other list; the participant
    gains one point when the chosen letter is the question's correct letter
    and nothing otherwise; nobody else's score changes. A submission that is
    not accepted changes nothing. *)
Theorem submit_answer_effect (name : string) (choice : option Letter) (quiz : Quiz) :
  ((forall msg, (submit_answer name choice quiz).2 <> st_success msg) ->
     (submit_answer name choice quiz).1 = quiz) /\
  (forall l qrow,
     choice = Some l -> started quiz = true ->
     current_row quiz = Some qrow -> answered name quiz = false ->
     let flag := String.eqb (letter_str l) (correct qrow) in
     let quiz' := (submit_answer name choice quiz).1 in
     (submit_answer name choice quiz).2 = st_success "Respuesta enviada" /\
     responses_get (current_q quiz) (responses quiz')
     = responses_get (current_q quiz) (responses quiz)
       ++ [mkResponse name (letter_str l) flag] /\
     (forall k, k <> current_q quiz ->
        responses_get k (responses quiz') = responses_get k (responses quiz)) /\
     get0 name (scores quiz')
     = get0 name (scores quiz) + (if flag then 1 else 0) /\
     (flag = true <-> letter_str l = correct qrow) /\
     (forall who, who <> name -> get0 who (scores quiz') = get0 who (scores quiz)) /\
     questions quiz' = questions quiz /\
     participants quiz' = participants quiz /\
     started quiz' = true /\
     current_q quiz' = current_q quiz).
Proof.
  split.
  - intros Hfb. unfold submit_answer in *.
    destruct (negb (started quiz)); [reflexivity|].
    destruct (current_row quiz); [|reflexivity].
    destruct (answered name quiz); [reflexivity|].
    destruct choice; [|reflexivity].
    simpl in Hfb. exfalso. now apply (Hfb "Respuesta enviada"%string).
  - intros l qrow -> Hst Hrow Hans. cbv zeta.
    rewrite (submit_answer_marks_correct name l quiz qrow Hst Hrow Hans).
    cbn [fst snd].
    split; [reflexivity|].
    split.
    { rewrite responses_get_save_answer. now destruct (decide _). }
    split.
    { intros k Hk. rewrite responses_get_save_answer. now destruct (decide _). }
    split.
    { rewrite get0_save_answer.
      destruct (String.eqb (letter_str l) (correct qrow));
        destruct (decide _) as [[_ H]|H]; try reflexivity; try discriminate.
      exfalso. now apply H. }
    split; [apply String.eqb_eq|].
    split.
    { intros who Hwho. rewrite get0_save_answer.
      destruct (decide _) as [[H _]|_]; [congruence | lia]. }
    destruct quiz; simpl in *. now repeat split.
Qed.

Lemma submit_answer_effect_witness :
  started quiz_started = true /\
  answered "Ana" (join "Ana" quiz_started).1 = false /\
  get0 "Ana" (scores (submit_answer "Ana" (Some LB) (join "Ana" quiz_started).1).1) = 1.
Proof.
  split; [reflexivity|]. split; [reflexivity|].
  destruct (submit_answer_effect "Ana" (Some LB) (join "Ana" quiz_started).1)
    as (_ & Hok).
  destruct (Hok LB (mkQuestion 1 "2+2?" "3" "4" "5" "6" "B") eq_refl eq_refl eq_refl eq_refl)
    as (_ & _ & _ & Hsc & _).
  rewrite Hsc. reflexivity.
Defined.

(** ** The countdown *)

Lemma left_as_floor (now : Q) (quiz : Quiz) :
  left now quiz
  = Z.max (Qfloor (inject_Z (time_per_q quiz) - (now - started_at quiz))%Q) 0.
Proof. unfold left. apply max_py_int_floor. Qed.

(** X16. The countdown only goes down as time passes, never exceeds the
    time per question once the question is shown, and is 0 from the moment
    [time_per_q] seconds have elapsed. *)
Theorem left_counts_down
    (now1 now2 : Q) (quiz : Quiz) (Hle : (now1 <= now2)%Q) :
  left now2 quiz <= left now1 quiz /\
  ((started_at quiz <= now1)%Q -> left now1 quiz <= Z.max (time_per_q quiz) 0) /\
  ((inject_Z (time_per_q quiz) <= now1 - started_at quiz)%Q -> left now1 quiz = 0).
Proof.
  rewrite !left_as_floor. split; [|split].
  - assert (Hr : (inject_Z (time_per_q quiz) - (now2 - started_at quiz)
                  <= inject_Z (time_per_q quiz) - (now1 - started_at quiz))%Q) by lra.
    apply Qfloor_resp_le in Hr. lia.
  - intros Hsa.
    assert (Hr : (inject_Z (time_per_q quiz) - (now1 - started_at quiz)
                  <= inject_Z (time_per_q quiz))%Q) by lra.
    apply Qfloor_resp_le in Hr. rewrite Qfloor_Z in Hr. lia.
  - intros Hexp.
    assert (Hr : (inject_Z (time_per_q quiz) - (now1 - started_at quiz)
                  <= 0)%Q) by lra.
    apply Qfloor_resp_le in Hr. change 0%Q with (inject_Z 0) in Hr.
    rewrite Qfloor_Z in Hr. lia.
Qed.

Lemma left_counts_down_witness :
  (105 <= 130)%Q /\
  left 130%Q quiz_started <= left 105%Q quiz_started /\
  left 130%Q quiz_started = 0.
Proof.
  assert (Hle : (105 <= 130)%Q) by (unfold Qle; simpl; lia).
  assert (Hle' : (130 <= 130)%Q) by (unfold Qle; simpl; lia).
  split; [exact Hle|].
  split; [exact (proj1 (left_counts_down 105%Q 130%Q quiz_started Hle))|].
  destruct (left_counts_down 130%Q 130%Q quiz_started Hle') as (_ & _ & Hzero).
  apply Hzero. vm_compute. discriminate.
Defined.

(** ** The registry *)

(** X17. A callback run for one PIN touches that session only: every
    other session of the registry is untouched, no session is created or
    removed, an unknown PIN changes nothing, and a known PIN maps to the
    quiz the callback returned (or to the old quiz when its guard fails). *)
Theorem callbacks_touch_one_session
    (f : Quiz -> option Quiz) (pin : string) (quizzes : gmap string Quiz) :
  (forall other, other <> pin -> on_pin f pin quizzes !! other = quizzes !! other) /\
  (quizzes !! pin = None -> on_pin f pin quizzes = quizzes) /\
  (forall quiz, quizzes !! pin = Some quiz ->
     on_pin f pin quizzes !! pin = Some (default quiz (f quiz))) /\
  dom (on_pin f pin quizzes) = dom quizzes.
Proof.
  unfold on_pin, mgr_get, mgr_update.
  destruct (quizzes !! pin) as [quiz|] eqn:Hpin.
  - destruct (f quiz) as [quiz'|] eqn:Hf.
    + split; [intros other Hne; now rewrite lookup_insert_ne|].
      split; [discriminate|].
      split; [intros q [= Hq]; subst q; rewrite Hf; apply lookup_insert_eq|].
      rewrite dom_insert_L. apply elem_of_dom_2 in Hpin.
      apply set_eq. intros x. rewrite elem_of_union, elem_of_singleton.
      split; [intros [->|Hx]; assumption | now right].
    + split; [reflexivity|]. split; [discriminate|].
      split; [intros q [= Hq]; subst q; now rewrite Hf | reflexivity].
  - split; [reflexivity|]. split; [reflexivity|]. split; [discriminate | reflexivity].
Qed.

Lemma callbacks_touch_one_session_witness :
  (<["1234" := quiz_one_question]> ∅ : gmap string Quiz) !! "1234"%string
  = Some quiz_one_question /\
  on_pin (start_quiz 100%Q) "1234" (<["1234" := quiz_one_question]> ∅) !! "1234"%string
  = Some quiz_started.
Proof.
  assert (Hl : (<["1234" := quiz_one_question]> ∅ : gmap string Quiz) !! "1234"%string
               = Some quiz_one_question) by apply lookup_insert_eq.
  split; [exact Hl|].
  destruct (callbacks_touch_one_session (start_quiz 100%Q) "1234"
              (<["1234" := quiz_one_question]> ∅)) as (_ & _ & Hat & _).
  rewrite (Hat _ Hl). reflexivity.
Defined.

(** X18. Two sessions created one after the other get different codes,
    both hold a new empty quiz afterwards, and the sessions that existed
    before are still there unchanged. *)
Theorem new_pin_twice_gives_distinct_codes
    (draws1 draws2 : list Z) (quizzes quizzes1 quizzes2 : gmap string Quiz)
    (pin1 pin2 : string)
    (H1 : new_pin draws1 quizzes = Some (pin1, quizzes1))
    (H2 : new_pin draws2 quizzes1 = Some (pin2, quizzes2)) :
  pin1 <> pin2 /\
  quizzes2 !! pin1 = Some Quiz_new /\
  quizzes2 !! pin2 = Some Quiz_new /\
  (forall p quiz, quizzes !! p = Some quiz -> quizzes2 !! p = Some quiz) /\
  size quizzes2 = S (S (size quizzes)).
Proof.
  apply new_pin_returns_first_free in H1 as (d1 & _ & -> & Hfree1 & ->).
  apply new_pin_returns_first_free in H2 as (d2 & _ & -> & Hfree2 & ->).
  assert (Hne : pin_of d1 <> pin_of d2).
  { intros Heq. rewrite <- Heq, lookup_insert_eq in Hfree2. discriminate. }
  split; [exact Hne|].
  split.
  { rewrite lookup_insert_ne by (intros Heq; now apply Hne).
    apply lookup_insert_eq. }
  split; [apply lookup_insert_eq|].
  split.
  - intros p quiz Hp.
    assert (Hp1 : pin_of d1 <> p) by (intros <-; congruence).
    assert (Hp2 : pin_of d2 <> p).
    { intros <-. rewrite lookup_insert_ne in Hfree2 by exact Hne. congruence. }
    rewrite lookup_insert_ne by exact Hp2.
    rewrite lookup_insert_ne by exact Hp1. exact Hp.
  - rewrite map_size_insert_None by exact Hfree2.
    now rewrite map_size_insert_None by exact Hfree1.
Qed.

Lemma new_pin_twice_gives_distinct_codes_witness :
  new_pin [1234] ∅ = Some ("1234"%string, <["1234" := Quiz_new]> ∅) /\
  new_pin [1234; 5678] (<["1234" := Quiz_new]> ∅)
  = Some ("5678"%string, <["5678" := Quiz_new]> (<["1234" := Quiz_new]> ∅)) /\
  "1234"%string <> "5678"%string.
Proof.
  assert (H1 : new_pin [1234] ∅ = Some ("1234"%string, <["1234" := Quiz_new]> ∅))
    by reflexivity.
  assert (H2 : new_pin [1234; 5678] (<["1234" := Quiz_new]> ∅)
               = Some ("5678"%string,
                       <["5678" := Quiz_new]> (<["1234" := Quiz_new]> ∅)))
    by reflexivity.
  split; [exact H1|]. split; [exact H2|].
  exact (proj1 (new_pin_twice_gives_distinct_codes _ _ _ _ _ _ _ H1 H2)).
Defined.

(** X19. "Unirme" joins only a session that exists: with an empty PIN, an
    empty name or an unknown PIN it reports an error and changes neither
    the registry nor the student's session state; otherwise the student's
    session is marked joined under that PIN and name, the name is on the
    roster of that quiz (added by [join] if it was not), and the other
    sessions are untouched. *)
Theorem unirme_joins_known_pin_only
    (pin name : string) (session : option (string * string))
    (quizzes : gmap string Quiz) :
  (pin = EmptyString \/ name = EmptyString \/ quizzes !! pin = None ->
     exists msg, unirme pin name session quizzes = (quizzes, session, st_error msg)) /\
  (forall quiz,
     pin <> EmptyString -> name <> EmptyString -> quizzes !! pin = Some quiz ->
     exists quizzes',
       unirme pin name session quizzes = (quizzes', Some (pin, name), quiet) /\
       quizzes' !! pin = Some (join name quiz).1 /\
       name ∈ participants (join name quiz).1 /\
       (forall other, other <> pin -> quizzes' !! other = quizzes !! other)).
Proof.
  unfold unirme, mgr_get, mgr_update. split.
  - intros Hbad.
    destruct (truthy pin) eqn:Hp; [|eexists; reflexivity].
    destruct (truthy name) eqn:Hn; [|eexists; reflexivity].
    apply truthy_true in Hp, Hn. simpl.
    destruct Hbad as [?|[?| ->]]; try contradiction. eexists; reflexivity.
  - intros quiz Hp Hn Hlook.
    rewrite (proj2 (truthy_true pin) Hp), (proj2 (truthy_true name) Hn), Hlook. simpl.
    destruct (joined name quiz) eqn:Hj.
    + apply joined_iff in Hj. exists quizzes.
      rewrite (join_joined name quiz Hj). now repeat split.
    + apply joined_false_iff in Hj. eexists. split; [reflexivity|].
      rewrite (join_new name quiz Hn Hj).
      split; [apply lookup_insert_eq|]. split.
      * destruct quiz; simpl. apply elem_of_app. right. apply list_elem_of_here.
      * intros other Hne. now rewrite lookup_insert_ne.
Qed.

Lemma unirme_joins_known_pin_only_witness :
  (∅ : gmap string Quiz) !! "1234"%string = None /\
  exists msg, unirme "1234" "Ana" None ∅ = (∅, None, st_error msg).
Proof.
  assert (Hnone : (∅ : gmap string Quiz) !! "1234"%string = None) by apply lookup_empty.
  split; [exact Hnone|].
  destruct (unirme_joins_known_pin_only "1234" "Ana" None ∅) as (Hbad & _).
  apply Hbad. right. right. exact Hnone.
Defined.

(** ** More on the live controls *)

(** X20. [prev_q] is rejected (a silent return, nothing mutated) exactly
    when [current_q] is at most 1, which covers the first question and
    every idle quiz. On success it steps back to the previous question,
    which exists and has id [current_q - 1], clears [reveal] and restarts
    the countdown; the recorded answers and scores are not touched. *)
Theorem prev_q_rejected_only_on_first_question
    (now : Q) (quiz : Quiz) (Hr : reachable quiz) :
  (current_q quiz <= 1 ->
     prev_q now quiz = None /\ step quiz (PrevQuestion now) = quiz) /\
  (started quiz = false -> prev_q now quiz = None) /\
  (1 < current_q quiz ->
     exists quiz' q,
       prev_q now quiz = Some quiz' /\
       step quiz (PrevQuestion now) = quiz' /\
       questions quiz !! Z.to_nat (current_q quiz - 2) = Some q /\
       current_q quiz' = qid q /\
       current_q quiz' = current_q quiz - 1 /\
       reveal quiz' = false /\
       started_at quiz' = now /\
       responses quiz' = responses quiz /\
       scores quiz' = scores quiz /\
       started quiz' = started quiz /\
       questions quiz' = questions quiz /\
       participants quiz' = participants quiz).
Proof.
  pose proof (idle_at_rest_reachable quiz Hr) as Hrest.
  apply reachable_wf in Hr as (Hids & Hidle & Hlive).
  split; [|split].
  - intros Hle. apply Z.ltb_ge in Hle as Hlt.
    unfold step, click, prev_q. simpl. rewrite Hlt.
    split; [reflexivity|]. apply Z.leb_le in Hle. now rewrite Hle, andb_false_r.
  - intros Hst. unfold prev_q. now rewrite (Hidle Hst).
  - intros Hgt.
    assert (Hst : started quiz = true).
    { destruct (started quiz) eqn:E; [reflexivity|].
      specialize (Hidle eq_refl). lia. }
    specialize (Hlive Hst).
    destruct (question_by_id quiz (current_q quiz - 1) Hids) as (q & Hq & Hqid);
      [lia|].
    replace (current_q quiz - 1 - 1) with (current_q quiz - 2) in Hq by lia.
    apply Z.ltb_lt in Hgt as Hltb. apply Z.leb_gt in Hgt as Hleb.
    destruct quiz as [t tp qs ps rs sc st cq rv sa]. simpl in *. subst st.
    unfold click, prev_q. simpl. rewrite Hltb, Hleb. simpl.
    unfold prev_q. simpl. rewrite Hltb. simpl.
    eexists. exists q. split; [reflexivity|]. split; [reflexivity|].
    split; [exact Hq|]. simpl. rewrite Hqid. now repeat split.
Qed.

Lemma prev_q_rejected_only_on_first_question_witness :
  reachable quiz_answered /\ current_q quiz_answered <= 1 /\
  step quiz_answered (PrevQuestion 130%Q) = quiz_answered.
Proof.
  assert (Hle : current_q quiz_answered <= 1) by (vm_compute; discriminate).
  split; [exact reachable_quiz_answered|]. split; [exact Hle|].
  destruct (prev_q_rejected_only_on_first_question
              130%Q quiz_answered reachable_quiz_answered) as (Hrej & _).
  exact (proj2 (Hrej Hle)).
Defined.

(** X21. After "Borrar todas" the live side is inert until a question is
    added: starting, moving, revealing, stopping and answering all leave the
    cleared quiz exactly as it is. *)
Theorem cleared_quiz_is_inert (quiz : Quiz) :
  let cleared := (clear_quiz quiz).1 in
  (forall now, step cleared (StartSession now) = cleared) /\
  (forall now, step cleared (NextQuestion now) = cleared) /\
  (forall now, step cleared (PrevQuestion now) = cleared) /\
  step cleared ToggleReveal = cleared /\
  step cleared StopSession = cleared /\
  (forall name choice, step cleared (SubmitAnswer name choice) = cleared) /\
  step cleared ClearQuiz = cleared.
Proof.
  destruct quiz as [t tp qs ps rs sc st cq rv sa]. simpl.
  repeat split; try reflexivity.
  intros name choice. now destruct (joined _ _).
Qed.

(** ** Counting responses *)

(** X22. A question never has more responses than the quiz has
    participants, and the leaderboard never has more rows than the
    roster. *)
Theorem responses_bounded_by_roster (quiz : Quiz) (k : Z) (Hr : reachable quiz) :
  (length (responses_get k (responses quiz)) <= length (participants quiz))%nat /\
  (length (sorted_scores quiz) <= length (participants quiz))%nat.
Proof.
  destruct (names_joined_reachable quiz Hr) as [Hresp Hsc].
  split.
  - rewrite <- (length_map r_name).
    apply submseteq_length, NoDup_submseteq.
    + apply (unique_answers_reachable quiz Hr k).
    + intros n Hn. now apply (Hresp k).
  - rewrite <- (length_map fst (sorted_scores quiz)).
    apply submseteq_length, NoDup_submseteq.
    + change (map fst (sorted_scores quiz)) with ((sorted_scores quiz).*1).
      rewrite sorted_scores_perm. apply NoDup_fst_map_to_list.
    + intros n Hn. apply list_elem_of_fmap in Hn as ([n' s] & -> & Hin).
      apply sorted_scores_elem in Hin. apply Hsc. now exists s.
Qed.

Lemma responses_bounded_by_roster_witness :
  reachable quiz_answered /\
  (length (responses_get 1 (responses quiz_answered)) <= 1)%nat.
Proof.
  split; [exact reachable_quiz_answered|].
  exact (proj1 (responses_bounded_by_roster quiz_answered 1 reachable_quiz_answered)).
Defined.

(** ** StartSession and NextQuestion as the teacher page issues them *)

(** C3. StartSession is rejected when the question list is empty or the
    quiz is already running, and a rejected StartSession mutates nothing,
    the phase included. On success it sets the quiz to running, puts
    [current_q] to the id of the first question, clears [reveal], stamps
    [started_at] with the current time and stores an empty answer list for
    that question; questions, roster, scores, title and time setting stay
    as they were. *)
Theorem start_session_rejected_when_empty_or_running
    (now : Q) (quiz : Quiz) (Hr : reachable quiz) :
  (questions quiz = [] \/ started quiz = true ->
     step quiz (StartSession now) = quiz) /\
  (questions quiz <> [] -> started quiz = false ->
     exists q qs,
       questions quiz = q :: qs /\
       started (step quiz (StartSession now)) = true /\
       current_q (step quiz (StartSession now)) = qid q /\
       reveal (step quiz (StartSession now)) = false /\
       started_at (step quiz (StartSession now)) = now /\
       responses (step quiz (StartSession now)) = <[qid q := []]> (responses quiz) /\
       responses_get (qid q) (responses (step quiz (StartSession now))) = [] /\
       questions (step quiz (StartSession now)) = questions quiz /\
       participants (step quiz (StartSession now)) = participants quiz /\
       scores (step quiz (StartSession now)) = scores quiz /\
       title (step quiz (StartSession now)) = title quiz /\
       time_per_q (step quiz (StartSession now)) = time_per_q quiz).
Proof.
  destruct (start_quiz_rejected_only_without_questions now quiz Hr)
    as (Hempty & Hrun & Hok).
  split.
  - intros [Hq|Hst]; [exact (proj2 (Hempty Hq)) | exact (Hrun Hst)].
  - intros Hne Hst. destruct (questions quiz) as [|q qs] eqn:Hq; [contradiction|].
    destruct (Hok q qs eq_refl)
      as (quiz' & _ & Hstep & H1 & H2 & H3 & H4 & H5 & H6 & H7 & H8 & H9 & H10 & H11 & H12).
    rewrite (Hstep Hst). exists q, qs.
    split; [reflexivity|]. rewrite H3.
    repeat split; try assumption. congruence.
Qed.

Lemma start_session_rejected_when_empty_or_running_witness :
  reachable quiz_one_question /\
  questions quiz_one_question <> [] /\ started quiz_one_question = false /\
  current_q (step quiz_one_question (StartSession 100%Q)) = 1 /\
  step quiz_answered (StartSession 200%Q) = quiz_answered.
Proof.
  assert (Hne : questions quiz_one_question <> []) by discriminate.
  split; [exact reachable_quiz_one_question|]. split; [exact Hne|].
  split; [reflexivity|].
  destruct (start_session_rejected_when_empty_or_running
              100%Q quiz_one_question reachable_quiz_one_question) as (_ & Hok).
  destruct (start_session_rejected_when_empty_or_running
              200%Q quiz_answered reachable_quiz_answered) as (Hrej & _).
  split.
  - destruct (Hok Hne eq_refl) as (q & qs & Hq & _ & Hcur & _).
    rewrite Hcur. injection Hq as <- _. reflexivity.
  - apply Hrej. right. reflexivity.
Defined.

(** C4. NextQuestion is rejected when the quiz is not running or
    [current_q] is already the id of the last question, and in either case
    the state is left completely unchanged. On success it moves
    [current_q] to the id of the next question, clears [reveal], stamps
    [started_at] with the current time and creates an empty answer list
    for the new question only if it has none; everything else stays as it
    was. *)
Theorem next_question_rejected_when_idle_or_last
    (now : Q) (quiz : Quiz) (Hr : reachable quiz) :
  (started quiz = false \/ len (questions quiz) <= current_q quiz ->
     step quiz (NextQuestion now) = quiz) /\
  (started quiz = true -> current_q quiz < len (questions quiz) ->
     exists q,
       questions quiz !! Z.to_nat (current_q quiz) = Some q /\
       current_q (step quiz (NextQuestion now)) = qid q /\
       current_q (step quiz (NextQuestion now)) = current_q quiz + 1 /\
       reveal (step quiz (NextQuestion now)) = false /\
       started_at (step quiz (NextQuestion now)) = now /\
       (responses quiz !! qid q = None ->
          responses (step quiz (NextQuestion now)) = <[qid q := []]> (responses quiz)) /\
       (forall rs, responses quiz !! qid q = Some rs ->
          responses (step quiz (NextQuestion now)) = responses quiz) /\
       started (step quiz (NextQuestion now)) = true /\
       questions (step quiz (NextQuestion now)) = questions quiz /\
       participants (step quiz (NextQuestion now)) = participants quiz /\
       scores (step quiz (NextQuestion now)) = scores quiz /\
       title (step quiz (NextQuestion now)) = title quiz /\
       time_per_q (step quiz (NextQuestion now)) = time_per_q quiz).
Proof.
  destruct (next_q_rejected_only_on_last_question now quiz Hr)
    as (Hlast & Hidle & Hok).
  split.
  - intros [Hst|Hle]; [exact (Hidle Hst) | exact (proj2 (Hlast Hle))].
  - intros Hst Hlt.
    destruct (Hok Hlt)
      as (quiz' & q & _ & Hstep & Hq & H1 & H2 & H3 & H4 & H5 & H6 & H7 & H8 & H9 & H10 & H11 & H12).
    rewrite (Hstep Hst). exists q.
    repeat split; try assumption. congruence.
Qed.

Lemma next_question_rejected_when_idle_or_last_witness :
  reachable quiz_two_questions /\
  started quiz_two_questions = true /\
  current_q quiz_two_questions < len (questions quiz_two_questions) /\
  current_q (step quiz_two_questions (NextQuestion 110%Q)) = 2 /\
  step quiz_one_question (NextQuestion 100%Q) = quiz_one_question.
Proof.
  assert (Hr : reachable quiz_two_questions) by (eexists; reflexivity).
  assert (Hlt : current_q quiz_two_questions < len (questions quiz_two_questions))
    by (vm_compute; reflexivity).
  split; [exact Hr|]. split; [reflexivity|]. split; [exact Hlt|].
  destruct (next_question_rejected_when_idle_or_last 110%Q quiz_two_questions Hr)
    as (_ & Hok).
  destruct (next_question_rejected_when_idle_or_last
              100%Q quiz_one_question reachable_quiz_one_question) as (Hrej & _).
  split.
  - destruct (Hok eq_refl Hlt) as (q & _ & _ & Hcur & _). exact Hcur.
  - apply Hrej. left. reflexivity.
Defined.

(** ** The leaderboard and the roster *)






